(** * WAFT data augmentation: [FlowAugmentor] ([eraser_transform],
      [color_transform], [spatial_transform], [__call__]) and
      [interpolate_holes_numpy] (src/dataloader/augmentor.py).

    Arrays are modelled with their shape and an element function, as a
    numpy array is a shape plus a buffer: [gh] is [shape[0]], [gw] is
    [shape[1]], [px g i j] is [g[i, j]] (a channel vector for images, a
    [(dx, dy)] pair for flow, a scalar for the validity mask).  Real-valued
    data are rationals [Q]; all claims are about the exact arithmetic of the
    pipeline, not about float rounding. *)

From Stdlib Require Import QArith Qround Lqa ZArith Lia Bool List.
Import ListNotations.

Open Scope Q_scope.

Record grid (A : Type) := Grid { gh : nat; gw : nat; px : nat -> nat -> A }.
Arguments Grid {A} _ _ _.
Arguments gh {A} _.
Arguments gw {A} _.
Arguments px {A} _ _ _.

Definition map_grid {A B} (f : A -> B) (g : grid A) : grid B :=
  Grid (gh g) (gw g) (fun i j => f (px g i j)).

(** A concrete array from its rows ([np.array(rows)]), and back ([g.tolist()]). *)
Definition of_rows {A} (d : A) (rows : list (list A)) : grid A :=
  Grid (length rows) (match rows with r :: _ => length r | [] => 0%nat end)
       (fun i j => nth j (nth i rows []) d).

Definition to_rows {A} (g : grid A) : list (list A) :=
  map (fun i => map (fun j => px g i j) (seq 0 (gw g))) (seq 0 (gh g)).

(** Element types that [cv2.resize] interpolates and [np.pad] fills: a zero
    and the linear combination [a * x + b * y], channel-wise. *)
Class Lin (A : Type) := { lzero : A; lcomb : Q -> A -> Q -> A -> A }.

#[global] Instance Lin_Q : Lin Q :=
  { lzero := 0; lcomb a x b y := a * x + b * y }.

#[global] Instance Lin_prod {A B} `{Lin A} `{Lin B} : Lin (A * B) :=
  { lzero := (lzero, lzero);
    lcomb a x b y := (lcomb a (fst x) b (fst y), lcomb a (snd x) b (snd y)) }.

(** An RGB pixel, a flow vector [(dx, dy)]. *)
Definition rgb := (Q * Q * Q)%type.
Definition vec := (Q * Q)%type.

(** ** numpy primitives *)

(** [np.pad(g, ((0, pad_b), (0, pad_r), ...), 'constant', constant_values=0)] *)
Definition np_pad {A} `{Lin A} (pad_b pad_r : nat) (g : grid A) : grid A :=
  Grid (gh g + pad_b) (gw g + pad_r)
       (fun i j => if (i <? gh g)%nat && (j <? gw g)%nat then px g i j else lzero).

(** [g[:, ::-1]] *)
Definition flip_cols {A} (g : grid A) : grid A :=
  Grid (gh g) (gw g) (fun i j => px g i (gw g - 1 - j)).

(** [g[::-1, :]] *)
Definition flip_rows {A} (g : grid A) : grid A :=
  Grid (gh g) (gw g) (fun i j => px g (gh g - 1 - i) j).

(** [flow * [a, b]] *)
Definition scale_flow (a b : Q) (f : grid vec) : grid vec :=
  map_grid (fun v => (fst v * a, snd v * b)) f.

(** [g[y0:y0+h, x0:x0+w]] for [y0, x0 >= 0]: Python slicing clamps the stop
    index at the extent. *)
Definition slice {A} (y0 h x0 w : nat) (g : grid A) : grid A :=
  Grid (Nat.min h (gh g - y0)) (Nat.min w (gw g - x0))
       (fun i j => px g (y0 + i) (x0 + j)).

(** [(g.astype(np.float32) > 0.5).astype(bool)] *)
Definition to_bool_mask (v : grid Q) : grid bool :=
  map_grid (fun x => negb (Qle_bool x (1 # 2))) v.

(** [valid.astype(np.float32)] on a boolean mask *)
Definition to_float_mask (v : grid bool) : grid Q :=
  map_grid (fun b : bool => if b then 1 else 0) v.

(** [f[~v] = 0]: boolean-mask assignment; numpy raises [IndexError] when the
    mask's shape differs from the array's. *)
Definition zero_invalid (f : grid vec) (v : grid bool) : option (grid vec) :=
  if (gh f =? gh v)%nat && (gw f =? gw v)%nat then
    Some (Grid (gh f) (gw f) (fun i j => if px v i j then px f i j else (0, 0)))
  else None.

(** [np.random.randint(lo, hi)]: raises [ValueError] when [lo >= hi];
    otherwise uniform in [[lo, hi)], here indexed by the raw draw [r]. *)
Definition randint (lo hi : Z) (r : nat) : option Z :=
  if (lo <? hi)%Z then Some (lo + Z.of_nat r mod (hi - lo))%Z else None.

(** ** cv2.resize(src, None, fx, fy, interpolation=cv2.INTER_LINEAR) *)

(** [cvRound]: round to nearest, ties to even. *)
Definition cvRound (x : Q) : Z :=
  let f := Qfloor x in
  let r := x - inject_Z f in
  if Qeq_bool r (1 # 2) then (if Z.even f then f else f + 1)%Z
  else if Qle_bool r (1 # 2) then f else (f + 1)%Z.

Definition Qpos_bool (x : Q) : bool := negb (Qle_bool x 0).

(** Source sample of destination index [d] along an axis of [n] pixels with
    inverse scale [inv]: [fc = (d + 0.5) * inv - 0.5], [s = floor fc],
    weight [fc - s], clamped to the border (replicated border). *)
Definition src_coord (inv : Q) (d n : nat) : nat * Q :=
  let fc := (inject_Z (Z.of_nat d) + (1 # 2)) * inv - (1 # 2) in
  let s := Qfloor fc in
  if (s <? 0)%Z then (0%nat, 0)
  else if (Z.of_nat n - 1 <=? s)%Z then ((n - 1)%nat, 0)
  else (Z.to_nat s, fc - inject_Z s).

(** The destination size is [(cvRound(W * fx), cvRound(H * fy))]; cv2 asserts
    a non-empty source, positive scales and a non-empty destination. *)
Definition resize {A} `{Lin A} (g : grid A) (fx fy : Q) : option (grid A) :=
  let w' := cvRound (inject_Z (Z.of_nat (gw g)) * fx) in
  let h' := cvRound (inject_Z (Z.of_nat (gh g)) * fy) in
  if (gh g =? 0)%nat || (gw g =? 0)%nat then None
  else if negb (Qpos_bool fx && Qpos_bool fy) then None
  else if (w' <=? 0)%Z || (h' <=? 0)%Z then None
  else Some (Grid (Z.to_nat h') (Z.to_nat w') (fun i j =>
    let (sy, ay) := src_coord (/ fy) i (gh g) in
    let (sx, ax) := src_coord (/ fx) j (gw g) in
    let sy1 := Nat.min (S sy) (gh g - 1) in
    let sx1 := Nat.min (S sx) (gw g - 1) in
    lcomb (1 - ay) (lcomb (1 - ax) (px g sy sx) ax (px g sy sx1))
          ay       (lcomb (1 - ax) (px g sy1 sx) ax (px g sy1 sx1)))).

Notation "'let?' x ':=' m 'in' k" :=
  (match m with Some x => k | None => None end)
  (at level 200, x name, m at level 100, k at level 200).

(** ** FlowAugmentor.spatial_transform *)

(** The fixed configuration: [crop_size] and [do_flip]. *)
Record config := Config { crop_h : nat; crop_w : nat; do_flip : bool }.

(** One outcome of the random draws of a call, in program order. *)
Record draws := Draws {
  d_scale : Q;       (* 2 ** np.random.uniform(self.min_scale, self.max_scale) *)
  d_stretch : bool;  (* np.random.rand() < self.stretch_prob *)
  d_stretch_x : Q;   (* 2 ** np.random.uniform(-self.max_stretch, self.max_stretch) *)
  d_stretch_y : Q;
  d_spatial : bool;  (* np.random.rand() < self.spatial_aug_prob *)
  d_hflip : bool;    (* np.random.rand() < self.h_flip_prob *)
  d_vflip : bool;    (* np.random.rand() < self.v_flip_prob *)
  d_y0 : nat;        (* raw draw of np.random.randint for y0 *)
  d_x0 : nat         (* raw draw of np.random.randint for x0 *)
}.

Definition eps : Q := 1 # 100000.

(** [pad_b = crop - n if crop > n else 0] *)
Definition pad_amount (crop n : nat) : nat := if (n <? crop)%nat then crop - n else 0.

Definition pad_stage (c : config) (img1 img2 : grid rgb) (flow : grid vec)
    (valid : grid Q) : grid rgb * grid rgb * grid vec * grid Q :=
  let pad_b := pad_amount (crop_h c) (gh img1) in
  let pad_r := pad_amount (crop_w c) (gw img1) in
  if negb ((pad_b =? 0)%nat && (pad_r =? 0)%nat) then
    (np_pad pad_b pad_r img1, np_pad pad_b pad_r img2,
     np_pad pad_b pad_r flow, np_pad pad_b pad_r valid)
  else (img1, img2, flow, valid).

(** [np.maximum(a, b)] on scalars *)
Definition np_maximum (a b : Q) : Q := if Qle_bool a b then b else a.

(** [min_scale = np.maximum((crop_h + 1) / float(ht), (crop_w + 1) / float(wd))];
    a zero extent raises [ZeroDivisionError]. *)
Definition min_scale_of (c : config) (ht wd : nat) : option Q :=
  if (ht =? 0)%nat || (wd =? 0)%nat then None
  else Some (np_maximum (inject_Z (Z.of_nat (crop_h c + 1)) / inject_Z (Z.of_nat ht))
                  (inject_Z (Z.of_nat (crop_w c + 1)) / inject_Z (Z.of_nat wd))).

(** [np.clip(x, lo, None)] *)
Definition clip_lo (x lo : Q) : Q := if Qle_bool lo x then x else lo.

Definition sample_scale (c : config) (d : draws) (ht wd : nat) : option (Q * Q) :=
  let? ms := min_scale_of c ht wd in
  let scale := d_scale d in
  let sxy := if d_stretch d then (scale * d_stretch_x d, scale * d_stretch_y d)
             else (scale, scale) in
  Some (clip_lo (fst sxy) ms, clip_lo (snd sxy) ms).

(** [flow * [scale_x, scale_y] / (valid + 1e-5)[:, :, None]] *)
Definition renorm (sx sy : Q) (f : grid vec) (v : grid Q) : grid vec :=
  Grid (gh f) (gw f) (fun i j =>
    let dnm := px v i j + eps in
    (fst (px f i j) * sx / dnm, snd (px f i j) * sy / dnm)).

Definition resample_stage (sx sy : Q) (img1 img2 : grid rgb) (flow : grid vec)
    (valid : grid bool) : option (grid rgb * grid rgb * grid vec * grid bool) :=
  let? img1' := resize img1 sx sy in
  let? img2' := resize img2 sx sy in
  let? flow0 := zero_invalid flow valid in
  let validf := to_float_mask valid in
  let? flow1 := resize flow0 sx sy in
  let? dens := resize validf sx sy in
  let flow2 := renorm sx sy flow1 dens in
  let valid' := to_bool_mask dens in
  let? flow3 := zero_invalid flow2 valid' in
  Some (img1', img2', flow3, valid').

Definition hflip_stage (img1 img2 : grid rgb) (flow : grid vec) :=
  (flip_cols img1, flip_cols img2, scale_flow (-1) 1 (flip_cols flow)).

Definition vflip_stage (img1 img2 : grid rgb) (flow : grid vec) :=
  (flip_rows img1, flip_rows img2, scale_flow 1 (-1) (flip_rows flow)).

(** The flip block; it does not touch [valid]. *)
Definition flip_stage (c : config) (d : draws) (img1 img2 : grid rgb)
    (flow : grid vec) : grid rgb * grid rgb * grid vec :=
  if do_flip c then
    let s1 := if d_hflip d then hflip_stage img1 img2 flow else (img1, img2, flow) in
    let '(i1, i2, f) := s1 in
    if d_vflip d then vflip_stage i1 i2 f else (i1, i2, f)
  else (img1, img2, flow).

(** [y0 = 0 if n == crop else np.random.randint(0, n - crop)] *)
Definition crop_offset (n crop r : nat) : option nat :=
  if (n =? crop)%nat then Some 0%nat
  else option_map Z.to_nat (randint 0 (Z.of_nat n - Z.of_nat crop) r).

Definition crop_stage (c : config) (d : draws) (img1 img2 : grid rgb)
    (flow : grid vec) (valid : grid bool)
    : option (grid rgb * grid rgb * grid vec * grid bool) :=
  let? y0 := crop_offset (gh img1) (crop_h c) (d_y0 d) in
  let? x0 := crop_offset (gw img1) (crop_w c) (d_x0 d) in
  Some (slice y0 (crop_h c) x0 (crop_w c) img1, slice y0 (crop_h c) x0 (crop_w c) img2,
        slice y0 (crop_h c) x0 (crop_w c) flow, slice y0 (crop_h c) x0 (crop_w c) valid).

Definition spatial_transform (c : config) (d : draws) (img1 img2 : grid rgb)
    (flow : grid vec) (valid : grid Q)
    : option (grid rgb * grid rgb * grid vec * grid bool) :=
  let '(img1, img2, flow, valid) := pad_stage c img1 img2 flow valid in
  let? sxy := sample_scale c d (gh img1) (gw img1) in
  let validb := to_bool_mask valid in
  let? r := if d_spatial d then resample_stage (fst sxy) (snd sxy) img1 img2 flow validb
            else Some (img1, img2, flow, validb) in
  let '(img1, img2, flow, validb) := r in
  let '(img1, img2, flow) := flip_stage c d img1 img2 flow in
  crop_stage c d img1 img2 flow validb.

(** The shape precondition of [augment]: one spatial extent for all four arrays. *)
Definition dims {A} (g : grid A) : nat * nat := (gh g, gw g).

Definition augment_pre (img1 img2 : grid rgb) (flow : grid vec) (valid : grid Q) : Prop :=
  dims img2 = dims img1 /\ dims flow = dims img1 /\ dims valid = dims img1.

(** Small concrete inputs: a 1x2 frame, its flow, a mask valid on the left
    pixel only, a crop of the whole frame. *)
Definition ex_cfg (flip : bool) : config := Config 1 2 flip.

Definition ex_draws (spatial hflip vflip : bool) : draws :=
  Draws 1 false 1 1 spatial hflip vflip 0 0.

Definition ex_img : grid rgb := of_rows (0, 0, 0) [[(10, 20, 30); (40, 50, 60)]].

Definition ex_flow : grid vec := of_rows (0, 0) [[(1, 2); (3, 4)]].

Definition ex_valid : grid Q := of_rows 0 [[1; 0]].

(** ** interpolate_holes_numpy *)

(** Element operations it relies on: [astype(np.float32)] from the input
    dtype [E] to float32 [F], [np.isnan] on each, and the float [0]. *)
Class Float32 (E F : Type) := {
  to_f32 : E -> F;
  isnan_f32 : F -> bool;
  isnan_in : E -> bool;
  zero_f32 : F
}.

(** Coordinates [(y, x)] where the mask equals [b], in the row-major order of
    [grid_y[mask]], [grid_x[mask]] over [np.mgrid]. *)
Definition coords_where (m : grid bool) (b : bool) : list (nat * nat) :=
  filter (fun yx => Bool.eqb (px m (fst yx) (snd yx)) b)
         (list_prod (seq 0 (gh m)) (seq 0 (gw m))).

Fixpoint index_of (yx : nat * nat) (l : list (nat * nat)) : nat :=
  match l with
  | [] => 0%nat
  | c :: l' => if (fst c =? fst yx)%nat && (snd c =? snd yx)%nat then 0%nat
               else S (index_of yx l')
  end.

(** [g[~m] = vals]: the k-th [False] position of [m] in row-major order gets
    [vals[k]]; a single row broadcasts; other lengths raise [ValueError]. *)
Definition mask_assign {P} (g : grid (list P)) (m : grid bool) (vals : list (list P))
    : option (grid (list P)) :=
  let inv := coords_where m false in
  if (length vals =? length inv)%nat then
    Some (Grid (gh g) (gw g) (fun i j =>
      if px m i j then px g i j else nth (index_of (i, j) inv) vals []))
  else if (length vals =? 1)%nat then
    Some (Grid (gh g) (gw g) (fun i j => if px m i j then px g i j else nth 0 vals []))
  else None.

(** The image is [H x W] pixels of channel lists (one channel for a 2-D
    image); [griddata] is [scipy.interpolate.griddata(..., method='linear')],
    [None] when it raises. *)
Definition interpolate_holes_numpy {E F M} `{Float32 E F} (astype_bool : M -> bool)
    (griddata : list (nat * nat) -> list (list F) -> list (nat * nat) -> option (list (list F)))
    (image : grid (list E)) (valid_mask : grid M) : option (grid (list F)) :=
  let image := map_grid (map to_f32) image in
  let valid_mask := map_grid astype_bool valid_mask in
  if negb ((gh valid_mask =? gh image)%nat && (gw valid_mask =? gw image)%nat) then None
  else
  let valid_coords := coords_where valid_mask true in
  let valid_values := map (fun yx => px image (fst yx) (snd yx)) valid_coords in
  let invalid_coords := coords_where valid_mask false in
  let? interpolated_values := griddata valid_coords valid_values invalid_coords in
  let? interpolated_image := mask_assign image valid_mask interpolated_values in
  Some (map_grid (map (fun x => if isnan_f32 x then zero_f32 else x)) interpolated_image).

(** A float stand-in for the examples: [None] is NaN. *)
#[global] Instance Float32_optQ : Float32 (option Q) (option Q) :=
  { to_f32 x := x; isnan_f32 x := match x with None => true | Some _ => false end;
    isnan_in x := match x with None => true | Some _ => false end; zero_f32 := Some 0 }.

(** A [griddata] stand-in: the mean of the data at every query point. *)
Definition mean_griddata (pts : list (nat * nat)) (vals : list (list (option Q)))
    (qs : list (nat * nat)) : option (list (list (option Q))) :=
  match pts with
  | [] => None
  | _ => let s := fold_right (fun v acc => match v with [Some x] => x + acc | _ => acc end) 0 vals in
         Some (map (fun _ => [Some (s / inject_Z (Z.of_nat (length pts)))]) qs)
  end.

Definition ex_holes : grid (list (option Q)) :=
  of_rows [] [[[Some 1]; [None]; [Some 3]]; [[Some 5]; [Some 7]; [None]]].

Definition ex_hole_mask : grid bool := of_rows false [[true; false; true]; [true; true; false]].

(** ** FlowAugmentor.eraser_transform *)

(** Raw draws of one call: [np.random.rand() < self.eraser_aug_prob], the
    draw of [np.random.randint(1, 3)], and per loop iteration [k] the draws
    of [x0], [y0], [dx], [dy]. *)
Record eraser_draws := Eraser {
  e_apply : bool;
  e_count : nat;
  e_x0 : nat -> nat;
  e_y0 : nat -> nat;
  e_dx : nat -> nat;
  e_dy : nat -> nat
}.

(** [np.mean(img2.reshape(-1, 3), axis=0)]: the channel-wise mean over all
    pixels.  (On an empty image numpy gives NaN; the model gives [0]; that
    colour is then written to no pixel.) *)
Definition mean_color (g : grid rgb) : rgb :=
  let sum := fold_right (fun yx acc => lcomb 1 acc 1 (px g (fst yx) (snd yx))) lzero
               (list_prod (seq 0 (gh g)) (seq 0 (gw g))) in
  lcomb (/ inject_Z (Z.of_nat (gh g * gw g))) sum 0 lzero.

(** Writing a float into a [uint8] array truncates toward zero. *)
Definition trunc_Q (x : Q) : Q :=
  if Qle_bool 0 x then inject_Z (Qfloor x) else inject_Z (Qceiling x).

Definition to_uint8_px (p : rgb) : rgb :=
  (trunc_Q (fst (fst p)), trunc_Q (snd (fst p)), trunc_Q (snd p)).

(** [g[y0:y0+dy, x0:x0+dx, :] = col] *)
Definition fill_rect (y0 dy x0 dx : nat) (col : rgb) (g : grid rgb) : grid rgb :=
  Grid (gh g) (gw g) (fun i j =>
    if (y0 <=? i)%nat && (i <? y0 + dy)%nat && (x0 <=? j)%nat && (j <? x0 + dx)%nat
    then col else px g i j).

(** The loop body, iterations [k .. k + n - 1]. *)
Fixpoint erase_loop (e : eraser_draws) (ht wd : nat) (col : rgb) (n k : nat) (g : grid rgb)
    : option (grid rgb) :=
  match n with
  | O => Some g
  | S n' =>
      let? x0 := randint 0 (Z.of_nat wd) (e_x0 e k) in
      let? y0 := randint 0 (Z.of_nat ht) (e_y0 e k) in
      let? dx := randint 50 100 (e_dx e k) in
      let? dy := randint 50 100 (e_dy e k) in
      erase_loop e ht wd col n' (S k)
        (fill_rect (Z.to_nat y0) (Z.to_nat dy) (Z.to_nat x0) (Z.to_nat dx) (to_uint8_px col) g)
  end.

Definition eraser_transform (e : eraser_draws) (img1 img2 : grid rgb)
    : option (grid rgb * grid rgb) :=
  let ht := gh img1 in
  let wd := gw img1 in
  if e_apply e then
    let mean := mean_color img2 in
    let? n := randint 1 3 (e_count e) in
    let? img2' := erase_loop e ht wd mean (Z.to_nat n) 0 img2 in
    Some (img1, img2')
  else Some (img1, img2).

(** ** FlowAugmentor.color_transform *)

(** [np.concatenate([a, b], axis=0)]: the other extents must agree. *)
Definition concat_rows (a b : grid rgb) : option (grid rgb) :=
  if (gw a =? gw b)%nat then
    Some (Grid (gh a + gh b) (gw a) (fun i j =>
      if (i <? gh a)%nat then px a i j else px b (i - gh a) j))
  else None.

(** [np.split(g, 2, axis=0)]: raises unless the extent is even. *)
Definition split2 (g : grid rgb) : option (grid rgb * grid rgb) :=
  if Nat.even (gh g) then
    let h := Nat.div (gh g) 2 in
    Some (Grid h (gw g) (px g), Grid h (gw g) (fun i j => px g (h + i) j))
  else None.

(** [photo1] and [photo2] are [self.photo_aug] (ColorJitter) under its first
    and second draw of the call; [asym] is
    [np.random.rand() < self.asymmetric_color_aug_prob]. *)
Definition color_transform (asym : bool) (photo1 photo2 : grid rgb -> grid rgb)
    (img1 img2 : grid rgb) : option (grid rgb * grid rgb) :=
  if asym then Some (photo1 img1, photo2 img2)
  else
    let? image_stack := concat_rows img1 img2 in
    split2 (photo1 image_stack).

(** ** FlowAugmentor.__call__ ([np.ascontiguousarray] keeps the values) *)

Definition flow_augmentor_call (c : config) (asym : bool) (photo1 photo2 : grid rgb -> grid rgb)
    (e : eraser_draws) (d : draws) (img1 img2 : grid rgb) (flow : grid vec) (valid : grid Q)
    : option (grid rgb * grid rgb * grid vec * grid bool) :=
  let? imgs := color_transform asym photo1 photo2 img1 img2 in
  let? imgs := eraser_transform e (fst imgs) (snd imgs) in
  spatial_transform c d (fst imgs) (snd imgs) flow valid.

(** The same draws with other flip decisions. *)
Definition with_flips (d : draws) (h v : bool) : draws :=
  Draws (d_scale d) (d_stretch d) (d_stretch_x d) (d_stretch_y d) (d_spatial d)
        h v (d_y0 d) (d_x0 d).

(** * Lemmas *)

Section Scalars.

Lemma np_maximum_ge_l a b : a <= np_maximum a b.
Proof.
  unfold np_maximum. destruct (Qle_bool a b) eqn:E.
  - apply Qle_bool_iff in E. exact E.
  - apply Qle_refl.
Qed.

Lemma np_maximum_ge_r a b : b <= np_maximum a b.
Proof.
  unfold np_maximum. destruct (Qle_bool a b) eqn:E.
  - apply Qle_refl.
  - apply not_true_iff_false in E. rewrite Qle_bool_iff in E.
    apply Qlt_le_weak, Qnot_le_lt. exact E.
Qed.

Lemma clip_lo_ge x lo : lo <= clip_lo x lo.
Proof.
  unfold clip_lo. destruct (Qle_bool lo x) eqn:E.
  - apply Qle_bool_iff in E. exact E.
  - apply Qle_refl.
Qed.

Lemma Qfloor_le_cvRound x : (Qfloor x <= cvRound x)%Z.
Proof.
  unfold cvRound.
  destruct (Qeq_bool _ _); [destruct (Z.even _)|destruct (Qle_bool _ _)]; lia.
Qed.

(** Rounding never goes below an integer lower bound. *)
Lemma cvRound_ge (n : Z) x : inject_Z n <= x -> (n <= cvRound x)%Z.
Proof.
  intro H. apply Qfloor_resp_le in H. rewrite Qfloor_Z in H.
  pose proof (Qfloor_le_cvRound x). lia.
Qed.

Lemma inject_nat_pos (n : nat) : (0 < n)%nat -> 0 < inject_Z (Z.of_nat n).
Proof. intro H. unfold Qlt; simpl. lia. Qed.

(** A scale at least [(k + 1) / n] stretches [n] pixels to at least [k + 1]. *)
Lemma scaled_extent_ge (n k : nat) s :
  (0 < n)%nat ->
  inject_Z (Z.of_nat (k + 1)) / inject_Z (Z.of_nat n) <= s ->
  inject_Z (Z.of_nat (k + 1)) <= inject_Z (Z.of_nat n) * s.
Proof.
  intros Hn Hs. pose proof (inject_nat_pos n Hn) as HN.
  set (N := inject_Z (Z.of_nat n)) in *. set (K := inject_Z (Z.of_nat (k + 1))) in *.
  apply Qle_trans with (N * (K / N)).
  - setoid_replace (N * (K / N)) with K; [apply Qle_refl|].
    field. intro E. rewrite E in HN. discriminate.
  - apply Qmult_le_l; assumption.
Qed.

Lemma ratio_pos (n k : nat) :
  (0 < n)%nat -> 0 < inject_Z (Z.of_nat (k + 1)) / inject_Z (Z.of_nat n).
Proof.
  intro Hn. apply Qlt_shift_div_l; [apply inject_nat_pos; exact Hn|].
  unfold Qlt; simpl. lia.
Qed.

Lemma Qpos_bool_true x : 0 < x -> Qpos_bool x = true.
Proof.
  intro H. unfold Qpos_bool. destruct (Qle_bool x 0) eqn:E; [|reflexivity].
  apply Qle_bool_iff in E. exfalso. apply (Qlt_not_le _ _ H E).
Qed.

End Scalars.

Section Shapes.

Lemma resize_dims {A} `{Lin A} (g g' : grid A) fx fy :
  resize g fx fy = Some g' ->
  dims g' = (Z.to_nat (cvRound (inject_Z (Z.of_nat (gh g)) * fy)),
             Z.to_nat (cvRound (inject_Z (Z.of_nat (gw g)) * fx))).
Proof.
  unfold resize. intro E.
  destruct (_ || _)%nat; [discriminate|].
  destruct (negb _); [discriminate|].
  destruct (_ || _)%Z; [discriminate|].
  injection E as <-. reflexivity.
Qed.

Lemma resize_some {A} `{Lin A} (g : grid A) fx fy :
  (0 < gh g)%nat -> (0 < gw g)%nat -> 0 < fx -> 0 < fy ->
  (0 < cvRound (inject_Z (Z.of_nat (gw g)) * fx))%Z ->
  (0 < cvRound (inject_Z (Z.of_nat (gh g)) * fy))%Z ->
  exists g', resize g fx fy = Some g'.
Proof.
  intros Hh Hw Hx Hy Rw Rh. unfold resize.
  replace ((gh g =? 0)%nat || (gw g =? 0)%nat) with false
    by (symmetry; apply orb_false_iff; split; apply Nat.eqb_neq; lia).
  rewrite (Qpos_bool_true _ Hx), (Qpos_bool_true _ Hy). simpl.
  replace (_ || _)%Z with false by (symmetry; apply orb_false_iff; split; apply Z.leb_gt; lia).
  eexists. reflexivity.
Qed.

(** The crop offset draw is well-formed whenever the extent covers the crop,
    and the window it selects lies inside the extent. *)
Lemma crop_offset_fits n crop r :
  (crop <= n)%nat -> exists y0, crop_offset n crop r = Some y0 /\ (y0 + crop <= n)%nat.
Proof.
  intro H. unfold crop_offset. destruct (Nat.eqb_spec n crop) as [->|Hne].
  - exists 0%nat. split; [reflexivity | lia].
  - unfold randint.
    assert (Hlt : (0 < Z.of_nat n - Z.of_nat crop)%Z) by lia.
    apply Z.ltb_lt in Hlt. rewrite Hlt. apply Z.ltb_lt in Hlt.
    pose proof (Z.mod_pos_bound (Z.of_nat r) _ Hlt).
    eexists. split; [reflexivity|]. rewrite Z.sub_0_r, Z.add_0_l.
    set (m := (Z.of_nat r mod (Z.of_nat n - Z.of_nat crop))%Z) in *. lia.
Qed.

Lemma slice_dims {A} (g : grid A) y0 h x0 w :
  (y0 + h <= gh g)%nat -> (x0 + w <= gw g)%nat -> dims (slice y0 h x0 w g) = (h, w).
Proof. intros. unfold dims, slice; simpl. f_equal; lia. Qed.

Lemma np_pad_dims {A} `{Lin A} (g : grid A) b r :
  dims (np_pad b r g) = (gh g + b, gw g + r)%nat.
Proof. reflexivity. Qed.

Lemma flip_stage_dims c d img1 img2 flow i1 i2 f :
  flip_stage c d img1 img2 flow = (i1, i2, f) ->
  dims i1 = dims img1 /\ dims i2 = dims img2 /\ dims f = dims flow.
Proof.
  unfold flip_stage.
  destruct (do_flip c), (d_hflip d), (d_vflip d); simpl;
    intro E; injection E as <- <- <-; repeat split.
Qed.

Lemma pad_amount_spec crop n : (n + pad_amount crop n)%nat = Nat.max crop n.
Proof. unfold pad_amount. destruct (Nat.ltb_spec n crop); lia. Qed.

(** The padded arrays share one extent, at least the crop size. *)
Lemma pad_stage_pre c img1 img2 flow valid p1 p2 pf pv :
  augment_pre img1 img2 flow valid ->
  pad_stage c img1 img2 flow valid = (p1, p2, pf, pv) ->
  augment_pre p1 p2 pf pv /\
  dims p1 = (Nat.max (crop_h c) (gh img1), Nat.max (crop_w c) (gw img1)).
Proof.
  unfold augment_pre, dims, pad_stage. intros (H2 & Hf & Hv).
  injection H2 as H2h H2w. injection Hf as Hfh Hfw. injection Hv as Hvh Hvw.
  rewrite <- !pad_amount_spec.
  destruct (negb _) eqn:Ep; intro E; injection E as <- <- <- <-; simpl.
  - rewrite H2h, H2w, Hfh, Hfw, Hvh, Hvw. repeat split.
  - apply negb_false_iff, andb_true_iff in Ep. destruct Ep as [E1 E2].
    apply Nat.eqb_eq in E1, E2. rewrite E1, E2, !Nat.add_0_r.
    rewrite H2h, H2w, Hfh, Hfw, Hvh, Hvw. repeat split.
Qed.

End Shapes.

Section Stages.

Lemma zero_invalid_some f v :
  dims f = dims v ->
  zero_invalid f v =
  Some (Grid (gh f) (gw f) (fun i j => if px v i j then px f i j else (0, 0))).
Proof.
  unfold dims, zero_invalid. intro E. injection E as Eh Ew.
  rewrite Eh, Ew, !Nat.eqb_refl. reflexivity.
Qed.

Lemma resize_same_dims {A B} `{Lin A} `{Lin B} (g : grid A) (k : grid B) g' k' fx fy :
  dims g = dims k -> resize g fx fy = Some g' -> resize k fx fy = Some k' ->
  dims g' = dims k'.
Proof.
  unfold dims at 1. intros E R1 R2. injection E as Eh Ew.
  rewrite (resize_dims _ _ _ _ R1), (resize_dims _ _ _ _ R2), Eh, Ew. reflexivity.
Qed.

Lemma sample_scale_ge c d ht wd :
  (0 < ht)%nat -> (0 < wd)%nat ->
  exists sx sy, sample_scale c d ht wd = Some (sx, sy) /\
    min_scale_of c ht wd =
      Some (np_maximum (inject_Z (Z.of_nat (crop_h c + 1)) / inject_Z (Z.of_nat ht))
                       (inject_Z (Z.of_nat (crop_w c + 1)) / inject_Z (Z.of_nat wd))) /\
    np_maximum (inject_Z (Z.of_nat (crop_h c + 1)) / inject_Z (Z.of_nat ht))
               (inject_Z (Z.of_nat (crop_w c + 1)) / inject_Z (Z.of_nat wd)) <= sx /\
    np_maximum (inject_Z (Z.of_nat (crop_h c + 1)) / inject_Z (Z.of_nat ht))
               (inject_Z (Z.of_nat (crop_w c + 1)) / inject_Z (Z.of_nat wd)) <= sy.
Proof.
  intros Hh Hw.
  assert (Ems : min_scale_of c ht wd =
      Some (np_maximum (inject_Z (Z.of_nat (crop_h c + 1)) / inject_Z (Z.of_nat ht))
                       (inject_Z (Z.of_nat (crop_w c + 1)) / inject_Z (Z.of_nat wd)))).
  { unfold min_scale_of.
    replace ((ht =? 0)%nat || (wd =? 0)%nat) with false
      by (symmetry; apply orb_false_iff; split; apply Nat.eqb_neq; lia).
    reflexivity. }
  unfold sample_scale. rewrite Ems.
  do 2 eexists. split; [reflexivity|]. split; [reflexivity|].
  split; apply clip_lo_ge.
Qed.

(** Extent of one axis after the resize: [cvRound (n * s)] exceeds the crop. *)
Lemma resized_extent_gt (n k : nat) ms s :
  (0 < n)%nat ->
  inject_Z (Z.of_nat (k + 1)) / inject_Z (Z.of_nat n) <= ms -> ms <= s ->
  (Z.of_nat k < cvRound (inject_Z (Z.of_nat n) * s))%Z /\ 0 < s.
Proof.
  intros Hn H1 H2. pose proof (Qle_trans _ _ _ H1 H2) as H.
  split.
  - pose proof (cvRound_ge _ _ (scaled_extent_ge n k s Hn H)). lia.
  - apply Qlt_le_trans with (2 := H). apply ratio_pos. exact Hn.
Qed.

Lemma resample_stage_dims sx sy img1 img2 flow valid :
  dims img2 = dims img1 -> dims flow = dims img1 -> dims valid = dims img1 ->
  (0 < gh img1)%nat -> (0 < gw img1)%nat -> 0 < sx -> 0 < sy ->
  (0 < cvRound (inject_Z (Z.of_nat (gw img1)) * sx))%Z ->
  (0 < cvRound (inject_Z (Z.of_nat (gh img1)) * sy))%Z ->
  exists i1 i2 f v, resample_stage sx sy img1 img2 flow valid = Some (i1, i2, f, v) /\
    dims i1 = (Z.to_nat (cvRound (inject_Z (Z.of_nat (gh img1)) * sy)),
               Z.to_nat (cvRound (inject_Z (Z.of_nat (gw img1)) * sx))) /\
    dims i2 = dims i1 /\ dims f = dims i1 /\ dims v = dims i1.
Proof.
  intros D2 Df Dv Hh Hw Hx Hy Rw Rh.
  pose proof D2 as D2'. pose proof Df as Df'. pose proof Dv as Dv'.
  unfold dims in D2', Df', Dv'.
  injection D2' as D2h D2w. injection Df' as Dfh Dfw. injection Dv' as Dvh Dvw.
  destruct (resize_some img1 sx sy Hh Hw Hx Hy Rw Rh) as [i1 R1].
  destruct (resize_some img2 sx sy) as [i2 R2]; try rewrite D2h; try rewrite D2w; auto.
  assert (Z0 : dims flow = dims valid) by (rewrite Df, <- Dv; reflexivity).
  set (f0 := Grid (gh flow) (gw flow)
               (fun i j => if px valid i j then px flow i j else (0, 0))).
  destruct (resize_some f0 sx sy) as [f1 Rf]; simpl; try rewrite Dfh; try rewrite Dfw; auto.
  destruct (resize_some (to_float_mask valid) sx sy) as [dn Rd];
    simpl; try rewrite Dvh; try rewrite Dvw; auto.
  assert (Df1 : dims f1 = dims i1).
  { exact (resize_same_dims f0 img1 _ _ _ _ Df Rf R1). }
  assert (Ddn : dims dn = dims i1).
  { exact (resize_same_dims (to_float_mask valid) img1 _ _ _ _ Dv Rd R1). }
  assert (Z1 : dims (renorm sx sy f1 dn) = dims (to_bool_mask dn))
    by (unfold dims in *; simpl; congruence).
  unfold resample_stage.
  rewrite R1, R2, (zero_invalid_some _ _ Z0). fold f0. rewrite Rf, Rd, (zero_invalid_some _ _ Z1).
  do 4 eexists. split; [reflexivity|].
  split; [exact (resize_dims _ _ _ _ R1)|].
  pose proof (resize_same_dims _ _ _ _ _ _ D2 R2 R1) as E2.
  unfold dims in *; simpl. repeat split; congruence.
Qed.

Lemma crop_stage_dims c d img1 img2 flow valid :
  dims img2 = dims img1 -> dims flow = dims img1 -> dims valid = dims img1 ->
  (crop_h c <= gh img1)%nat -> (crop_w c <= gw img1)%nat ->
  exists i1 i2 f v, crop_stage c d img1 img2 flow valid = Some (i1, i2, f, v) /\
    dims i1 = (crop_h c, crop_w c) /\ dims i2 = (crop_h c, crop_w c) /\
    dims f = (crop_h c, crop_w c) /\ dims v = (crop_h c, crop_w c).
Proof.
  intros D2 Df Dv Hh Hw.
  destruct (crop_offset_fits (gh img1) (crop_h c) (d_y0 d) Hh) as [y0 [Ey Hy]].
  destruct (crop_offset_fits (gw img1) (crop_w c) (d_x0 d) Hw) as [x0 [Ex Hx]].
  unfold crop_stage. rewrite Ey, Ex.
  unfold dims in D2, Df, Dv.
  injection D2 as D2h D2w. injection Df as Dfh Dfw. injection Dv as Dvh Dvw.
  do 4 eexists. split; [reflexivity|].
  repeat split; apply slice_dims; congruence.
Qed.

End Stages.

Section Pipeline.

Ltac destruct_opts E :=
  repeat match type of E with
  | context [match ?m with Some _ => _ | None => None end] =>
      let R := fresh "R" in destruct m eqn:R; [|discriminate E]
  end.

(** The taps of the bilinear resize stay inside a non-empty source. *)
Lemma src_coord_lt inv k n : (0 < n)%nat -> (fst (src_coord inv k n) < n)%nat.
Proof.
  intro Hn. unfold src_coord.
  set (s := Qfloor _).
  destruct (s <? 0)%Z eqn:E1; [simpl; lia|].
  destruct (Z.of_nat n - 1 <=? s)%Z eqn:E2; [simpl; lia|].
  apply Z.ltb_ge in E1. apply Z.leb_gt in E2. simpl. lia.
Qed.

(** [cv2.resize] of an array that is zero on its extent is zero everywhere. *)
Lemma resize_zero (g g' : grid Q) fx fy :
  (forall i j, (i < gh g)%nat -> (j < gw g)%nat -> px g i j == 0) ->
  resize g fx fy = Some g' -> forall i j, px g' i j == 0.
Proof.
  intros Hz R i j. unfold resize in R.
  destruct ((gh g =? 0)%nat || (gw g =? 0)%nat) eqn:E0; [discriminate|].
  apply orb_false_iff in E0. destruct E0 as [Eh Ew].
  apply Nat.eqb_neq in Eh, Ew.
  destruct (negb _); [discriminate|]. destruct (_ || _)%Z; [discriminate|].
  injection R as <-. cbn [px].
  pose proof (src_coord_lt (/ fy) i (gh g) ltac:(lia)) as Ly.
  pose proof (src_coord_lt (/ fx) j (gw g) ltac:(lia)) as Lx.
  destruct (src_coord (/ fy) i (gh g)) as [sy ay].
  destruct (src_coord (/ fx) j (gw g)) as [sx ax]. simpl in Ly, Lx.
  cbn [lcomb Lin_Q].
  rewrite !Hz by (repeat match goal with
                  | |- context [match ?x with 0%nat => _ | S _ => _ end] => destruct x eqn:?
                  end; lia).
  ring.
Qed.

Lemma resample_stage_invalid_zero sx sy img1 img2 flow valid i1 i2 f v :
  resample_stage sx sy img1 img2 flow valid = Some (i1, i2, f, v) ->
  forall i j, px v i j = false -> px f i j = (0, 0).
Proof.
  unfold resample_stage. intro E. destruct_opts E.
  injection E as <- <- <- <-. intros i j Hv.
  unfold zero_invalid in R4.
  destruct (_ && _); [|discriminate]. injection R4 as <-. simpl.
  simpl in Hv. rewrite Hv. reflexivity.
Qed.

Lemma spatial_transform_inv c d img1 img2 flow valid out :
  spatial_transform c d img1 img2 flow valid = Some out ->
  exists p1 p2 pf pv sx sy r1 r2 rf rv j1 j2 jf,
    pad_stage c img1 img2 flow valid = (p1, p2, pf, pv) /\
    sample_scale c d (gh p1) (gw p1) = Some (sx, sy) /\
    (if d_spatial d then resample_stage sx sy p1 p2 pf (to_bool_mask pv)
     else Some (p1, p2, pf, to_bool_mask pv)) = Some (r1, r2, rf, rv) /\
    flip_stage c d r1 r2 rf = (j1, j2, jf) /\
    crop_stage c d j1 j2 jf rv = Some out.
Proof.
  unfold spatial_transform. intro E.
  destruct (pad_stage c img1 img2 flow valid) as [[[p1 p2] pf] pv] eqn:Ep.
  destruct (sample_scale c d (gh p1) (gw p1)) as [[sx sy]|] eqn:Es; [|discriminate].
  cbn [fst snd] in E.
  destruct (if d_spatial d then _ else _) as [[[[r1 r2] rf] rv]|] eqn:Er; [|discriminate].
  destruct (flip_stage c d r1 r2 rf) as [[j1 j2] jf] eqn:Ef.
  exists p1, p2, pf, pv, sx, sy, r1, r2, rf, rv, j1, j2, jf. auto.
Qed.

(** The crop takes the same window of flow and validity. *)
Lemma crop_stage_window c d img1 img2 flow valid i1 i2 f v :
  crop_stage c d img1 img2 flow valid = Some (i1, i2, f, v) ->
  exists y0 x0, forall i j,
    px f i j = px flow (y0 + i) (x0 + j) /\ px v i j = px valid (y0 + i) (x0 + j) /\
    px i1 i j = px img1 (y0 + i) (x0 + j) /\ px i2 i j = px img2 (y0 + i) (x0 + j).
Proof.
  unfold crop_stage. intro E. destruct_opts E.
  injection E as <- <- <- <-. exists n, n0. intros i j. simpl. auto.
Qed.

Lemma flip_stage_none c d img1 img2 flow :
  (do_flip c = false \/ (d_hflip d = false /\ d_vflip d = false)) ->
  flip_stage c d img1 img2 flow = (img1, img2, flow).
Proof.
  unfold flip_stage. intros [H | [H1 H2]].
  - rewrite H. reflexivity.
  - destruct (do_flip c); [rewrite H1, H2|]; reflexivity.
Qed.

Lemma resample_stage_valid sx sy img1 img2 flow valid i1 i2 f v :
  resample_stage sx sy img1 img2 flow valid = Some (i1, i2, f, v) ->
  exists dn, resize (to_float_mask valid) sx sy = Some dn /\ v = to_bool_mask dn.
Proof.
  unfold resample_stage. intro E.
  destruct (resize img1 sx sy); [|discriminate].
  destruct (resize img2 sx sy); [|discriminate].
  destruct (zero_invalid flow valid); [|discriminate].
  destruct (resize g1 sx sy); [|discriminate].
  destruct (resize (to_float_mask valid) sx sy) as [dn|]; [|discriminate].
  destruct (zero_invalid _ _); [|discriminate].
  injection E as _ _ _ <-. eauto.
Qed.

Lemma flip_stage_flow_zero c d img1 img2 flow j1 j2 jf :
  (forall i j, px flow i j = (0, 0)) ->
  flip_stage c d img1 img2 flow = (j1, j2, jf) -> forall i j, px jf i j = (0, 0).
Proof.
  intros Hz. unfold flip_stage.
  destruct (do_flip c), (d_hflip d), (d_vflip d); simpl;
    intro E; injection E as _ _ <-; intros i j; simpl; rewrite ?Hz; reflexivity.
Qed.

Lemma pad_stage_valid_le c img1 img2 flow valid p1 p2 pf pv :
  (forall i j, (i < gh valid)%nat -> (j < gw valid)%nat -> px valid i j <= 1 # 2) ->
  pad_stage c img1 img2 flow valid = (p1, p2, pf, pv) ->
  forall i j, (i < gh pv)%nat -> (j < gw pv)%nat -> px pv i j <= 1 # 2.
Proof.
  intros Hv. unfold pad_stage.
  destruct (negb _); intro E; injection E as _ _ _ <-; [|exact Hv].
  intros i j _ _. simpl.
  destruct ((i <? gh valid)%nat && (j <? gw valid)%nat) eqn:B.
  - apply andb_true_iff in B. destruct B as [Bi Bj].
    apply Nat.ltb_lt in Bi, Bj. apply Hv; assumption.
  - unfold Qle; simpl. lia.
Qed.

Lemma Qle_half_bool x : x <= 1 # 2 -> Qle_bool x (1 # 2) = true.
Proof. intro H. apply Qle_bool_iff. exact H. Qed.

Lemma Qeq0_le_half x : x == 0 -> Qle_bool x (1 # 2) = true.
Proof. intro H. apply Qle_half_bool. rewrite H. unfold Qle; simpl. lia. Qed.

End Pipeline.

(** * Claims about [spatial_transform] *)

Lemma spatial_transform_some_dims c d img1 img2 flow valid :
  (1 <= crop_h c)%nat -> (1 <= crop_w c)%nat -> augment_pre img1 img2 flow valid ->
  exists i1 i2 f v, spatial_transform c d img1 img2 flow valid = Some (i1, i2, f, v) /\
    dims i1 = (crop_h c, crop_w c) /\ dims i2 = (crop_h c, crop_w c) /\
    dims f = (crop_h c, crop_w c) /\ dims v = (crop_h c, crop_w c).
Proof.
  intros Ch Cw Pre. unfold spatial_transform.
  destruct (pad_stage c img1 img2 flow valid) as [[[p1 p2] pf] pv] eqn:Ep.
  destruct (pad_stage_pre _ _ _ _ _ _ _ _ _ Pre Ep) as [(D2 & Df & Dv) Dp].
  unfold dims in Dp. injection Dp as Dph Dpw.
  assert (Hh : (0 < gh p1)%nat) by lia. assert (Hw : (0 < gw p1)%nat) by lia.
  destruct (sample_scale_ge c d (gh p1) (gw p1) Hh Hw) as (sx & sy & Es & _ & Bx & By).
  rewrite Es. cbn [fst snd].
  destruct (resized_extent_gt (gh p1) (crop_h c) _ sy Hh (np_maximum_ge_l _ _) By) as [Rh Py].
  destruct (resized_extent_gt (gw p1) (crop_w c) _ sx Hw (np_maximum_ge_r _ _) Bx) as [Rw Px].
  assert (Dvb : dims (to_bool_mask pv) = dims p1) by exact Dv.
  destruct (d_spatial d).
  - destruct (resample_stage_dims sx sy p1 p2 pf (to_bool_mask pv) D2 Df Dvb Hh Hw Px Py
                ltac:(lia) ltac:(lia)) as (i1 & i2 & f & v & Er & Di1 & Di2 & Df' & Dv').
    rewrite Er.
    destruct (flip_stage c d i1 i2 f) as [[j1 j2] g] eqn:Ef.
    destruct (flip_stage_dims _ _ _ _ _ _ _ _ Ef) as (E1 & E2 & E3).
    unfold dims in Di1. injection Di1 as Di1h Di1w.
    injection E1 as E1h E1w. apply crop_stage_dims; unfold dims in *; try congruence; lia.
  - destruct (flip_stage c d p1 p2 pf) as [[j1 j2] g] eqn:Ef.
    destruct (flip_stage_dims _ _ _ _ _ _ _ _ Ef) as (E1 & E2 & E3).
    injection E1 as E1h E1w. apply crop_stage_dims; unfold dims in *; try congruence; lia.
Qed.

(** C3: for every input meeting the shape precondition and every outcome of
    the random draws, [spatial_transform] returns (it raises nothing) and all
    four outputs have spatial extent exactly the crop size. *)
Theorem spatial_transform_output_shape c d img1 img2 flow valid :
  (1 <= crop_h c)%nat -> (1 <= crop_w c)%nat -> augment_pre img1 img2 flow valid ->
  exists i1 i2 f v, spatial_transform c d img1 img2 flow valid = Some (i1, i2, f, v) /\
    dims i1 = (crop_h c, crop_w c) /\ dims i2 = (crop_h c, crop_w c) /\
    dims f = (crop_h c, crop_w c) /\ dims v = (crop_h c, crop_w c).
Proof. exact (spatial_transform_some_dims c d img1 img2 flow valid). Qed.

Lemma spatial_transform_output_shape_witness :
  exists i1 i2 f v,
    spatial_transform (Config 2 3 true) (ex_draws true true false)
      ex_img ex_img ex_flow ex_valid = Some (i1, i2, f, v) /\
    dims i1 = (2, 3)%nat /\ dims v = (2, 3)%nat.
Proof.
  assert (Pre : augment_pre ex_img ex_img ex_flow ex_valid) by (repeat split).
  destruct (spatial_transform_output_shape (Config 2 3 true) (ex_draws true true false)
              ex_img ex_img ex_flow ex_valid ltac:(simpl; lia) ltac:(simpl; lia) Pre)
    as (i1 & i2 & f & v & E & D1 & _ & _ & Dv).
  exists i1, i2, f, v. auto.
Defined.

(** C4: on a padded array of extent [H x W] (at least the crop size), the
    clipped scales are at least
    [min_scale = max((crop_h + 1) / H, (crop_w + 1) / W)] whatever the draws;
    the resize then succeeds with an extent strictly larger than the crop in
    both axes, and the crop-offset draws (on the resized extent, or on the
    padded one when resampling is skipped) never raise. *)
Theorem scale_clip_keeps_crop_in_range c d {A} `{Lin A} (g : grid A) :
  (1 <= crop_h c)%nat -> (1 <= crop_w c)%nat ->
  (crop_h c <= gh g)%nat -> (crop_w c <= gw g)%nat ->
  exists ms sx sy,
    min_scale_of c (gh g) (gw g) = Some ms /\
    ms = np_maximum (inject_Z (Z.of_nat (crop_h c + 1)) / inject_Z (Z.of_nat (gh g)))
                    (inject_Z (Z.of_nat (crop_w c + 1)) / inject_Z (Z.of_nat (gw g))) /\
    sample_scale c d (gh g) (gw g) = Some (sx, sy) /\ ms <= sx /\ ms <= sy /\
    (exists g', resize g sx sy = Some g' /\
       (crop_h c < gh g')%nat /\ (crop_w c < gw g')%nat /\
       forall ry rx, (exists y0, crop_offset (gh g') (crop_h c) ry = Some y0) /\
                     (exists x0, crop_offset (gw g') (crop_w c) rx = Some x0)) /\
    (forall ry rx, (exists y0, crop_offset (gh g) (crop_h c) ry = Some y0) /\
                   (exists x0, crop_offset (gw g) (crop_w c) rx = Some x0)).
Proof.
  intros Ch Cw Hh Hw.
  assert (Hh' : (0 < gh g)%nat) by lia. assert (Hw' : (0 < gw g)%nat) by lia.
  destruct (sample_scale_ge c d (gh g) (gw g) Hh' Hw') as (sx & sy & Es & Ems & Bx & By).
  destruct (resized_extent_gt (gh g) (crop_h c) _ sy Hh' (np_maximum_ge_l _ _) By) as [Rh Py].
  destruct (resized_extent_gt (gw g) (crop_w c) _ sx Hw' (np_maximum_ge_r _ _) Bx) as [Rw Px].
  do 3 eexists. split; [exact Ems|]. split; [reflexivity|].
  split; [exact Es|]. split; [exact Bx|]. split; [exact By|]. split.
  - destruct (resize_some g sx sy Hh' Hw' Px Py ltac:(lia) ltac:(lia)) as [g' Rg].
    pose proof (resize_dims _ _ _ _ Rg) as Dg. unfold dims in Dg. injection Dg as Dgh Dgw.
    exists g'. split; [exact Rg|].
    assert (Gh : (crop_h c < gh g')%nat) by lia.
    assert (Gw : (crop_w c < gw g')%nat) by lia.
    split; [exact Gh|]. split; [exact Gw|]. intros ry rx. split.
    + destruct (crop_offset_fits (gh g') (crop_h c) ry) as [y0 [Ey _]]; [lia|eauto].
    + destruct (crop_offset_fits (gw g') (crop_w c) rx) as [x0 [Ex _]]; [lia|eauto].
  - intros ry rx. split.
    + destruct (crop_offset_fits (gh g) (crop_h c) ry) as [y0 [Ey _]]; [lia|eauto].
    + destruct (crop_offset_fits (gw g) (crop_w c) rx) as [x0 [Ex _]]; [lia|eauto].
Qed.

Lemma scale_clip_keeps_crop_in_range_witness :
  exists ms sx sy,
    min_scale_of (ex_cfg true) 1 2 = Some ms /\ ms == 2 /\
    sample_scale (ex_cfg true) (ex_draws true false false) 1 2 = Some (sx, sy) /\
    ms <= sx /\ ms <= sy.
Proof.
  destruct (scale_clip_keeps_crop_in_range (ex_cfg true) (ex_draws true false false) ex_img
              ltac:(simpl; lia) ltac:(simpl; lia) ltac:(simpl; lia) ltac:(simpl; lia))
    as (ms & sx & sy & Ems & Hms & Es & Bx & By & _).
  exists ms, sx, sy. split; [exact Ems|]. split; [rewrite Hms; reflexivity|]. auto.
Defined.

(** C5: in the resampling branch the flow is zeroed at the invalid pixels
    before [cv2.resize]; the resized flow [F] is multiplied by
    [(scale_x, scale_y)] and divided, in both channels, by the resized
    validity density [D] plus [1e-5]; validity is re-thresholded to
    [D > 0.5] (and the flow is zeroed where it is false). *)
Theorem resample_stage_renormalises sx sy img1 img2 flow valid i1 i2 f v :
  resample_stage sx sy img1 img2 flow valid = Some (i1, i2, f, v) ->
  exists F D,
    resize img1 sx sy = Some i1 /\ resize img2 sx sy = Some i2 /\
    resize (Grid (gh flow) (gw flow)
              (fun i j => if px valid i j then px flow i j else (0, 0))) sx sy = Some F /\
    resize (to_float_mask valid) sx sy = Some D /\
    dims f = dims F /\ dims v = dims D /\
    forall i j,
      px v i j = negb (Qle_bool (px D i j) (1 # 2)) /\
      px f i j = if px v i j
                 then (fst (px F i j) * sx / (px D i j + eps),
                       snd (px F i j) * sy / (px D i j + eps))
                 else (0, 0).
Proof.
  unfold resample_stage. intro E.
  destruct (resize img1 sx sy) as [r1|] eqn:R1; [|discriminate].
  destruct (resize img2 sx sy) as [r2|] eqn:R2; [|discriminate].
  destruct (zero_invalid flow valid) as [f0|] eqn:Z0; [|discriminate].
  destruct (resize f0 sx sy) as [f1|] eqn:R3; [|discriminate].
  destruct (resize (to_float_mask valid) sx sy) as [dn|] eqn:R4; [|discriminate].
  destruct (zero_invalid (renorm sx sy f1 dn) (to_bool_mask dn)) as [f3|] eqn:Z1;
    [|discriminate].
  injection E as <- <- <- <-.
  unfold zero_invalid in Z0, Z1.
  destruct (_ && _)%nat in Z0; [|discriminate]. injection Z0 as <-.
  destruct (_ && _)%nat in Z1; [|discriminate]. injection Z1 as <-.
  exists f1, dn. repeat split; auto.
Qed.

Lemma resample_stage_renormalises_witness :
  exists i1 i2 f v,
    resample_stage 2 2 ex_img ex_img ex_flow (to_bool_mask ex_valid) = Some (i1, i2, f, v) /\
    exists D, resize (to_float_mask (to_bool_mask ex_valid)) 2 2 = Some D /\
      px v 0 2 = negb (Qle_bool (px D 0 2) (1 # 2)).
Proof.
  do 4 eexists.
  match goal with
  | |- ?e = Some (?a, ?b, ?c, ?d) /\ _ => assert (R : e = Some (a, b, c, d)) by reflexivity
  end.
  split; [exact R|].
  destruct (resample_stage_renormalises _ _ _ _ _ _ _ _ _ _ R)
    as (F & D & _ & _ & _ & RD & _ & _ & P).
  exists D. split; [exact RD|]. exact (proj1 (P 0%nat 2%nat)).
Defined.

(** C6: when the validity mask is false everywhere (every value at most
    [0.5]) and the resampling branch is taken, [spatial_transform] raises
    nothing and returns a flow that is [(0, 0)] at every pixel (and a mask
    that is false everywhere); the resized density is [0] everywhere, so every
    divisor [density + 1e-5] of the renormalisation is non-zero. *)
Theorem all_invalid_resample_zero_flow c d img1 img2 flow valid :
  (1 <= crop_h c)%nat -> (1 <= crop_w c)%nat -> augment_pre img1 img2 flow valid ->
  (forall i j, (i < gh valid)%nat -> (j < gw valid)%nat -> px valid i j <= 1 # 2) ->
  d_spatial d = true ->
  (forall p1 p2 pf pv sx sy dn,
     pad_stage c img1 img2 flow valid = (p1, p2, pf, pv) ->
     resize (to_float_mask (to_bool_mask pv)) sx sy = Some dn ->
     forall i j, px dn i j == 0 /\ ~ (px dn i j + eps == 0)) /\
  exists i1 i2 f v, spatial_transform c d img1 img2 flow valid = Some (i1, i2, f, v) /\
    forall i j, px f i j = (0, 0) /\ px v i j = false.
Proof.
  intros Ch Cw Pre Hv Hs.
  assert (Dens : forall p1 p2 pf pv sx sy dn,
     pad_stage c img1 img2 flow valid = (p1, p2, pf, pv) ->
     resize (to_float_mask (to_bool_mask pv)) sx sy = Some dn ->
     forall i j, px dn i j == 0).
  { intros p1 p2 pf pv sx sy dn Ep Rd.
    apply (resize_zero _ _ _ _) with (2 := Rd). intros i j Hi Hj.
    simpl. rewrite (Qle_half_bool _ (pad_stage_valid_le _ _ _ _ _ _ _ _ _ Hv Ep i j Hi Hj)).
    reflexivity. }
  split.
  { intros p1 p2 pf pv sx sy dn Ep Rd i j.
    pose proof (Dens _ _ _ _ _ _ _ Ep Rd i j) as Z. split; [exact Z|].
    rewrite Z. discriminate. }
  destruct (spatial_transform_some_dims c d img1 img2 flow valid Ch Cw Pre)
    as (i1 & i2 & f & v & E & _).
  exists i1, i2, f, v. split; [exact E|].
  destruct (spatial_transform_inv _ _ _ _ _ _ _ E)
    as (p1 & p2 & pf & pv & sx & sy & r1 & r2 & rf & rv & j1 & j2 & jf &
        Ep & Es & Er & Ef & Ec).
  rewrite Hs in Er.
  destruct (resample_stage_valid _ _ _ _ _ _ _ _ _ _ Er) as (dn & Rd & ->).
  assert (Vf : forall i j, px (to_bool_mask dn) i j = false).
  { intros i j. simpl. rewrite (Qeq0_le_half _ (Dens _ _ _ _ _ _ _ Ep Rd i j)). reflexivity. }
  pose proof (resample_stage_invalid_zero _ _ _ _ _ _ _ _ _ _ Er) as Fz.
  pose proof (flip_stage_flow_zero _ _ _ _ _ _ _ _ (fun i j => Fz i j (Vf i j)) Ef) as Jz.
  destruct (crop_stage_window _ _ _ _ _ _ _ _ _ _ Ec) as (y0 & x0 & W).
  intros i j. destruct (W i j) as (W1 & W2 & _). rewrite W1, W2. auto.
Qed.

Lemma all_invalid_resample_zero_flow_witness :
  exists i1 i2 f v,
    spatial_transform (ex_cfg true) (ex_draws true true true)
      ex_img ex_img ex_flow (of_rows 0 [[0; 0]]) = Some (i1, i2, f, v) /\
    px f 0 1 = (0, 0).
Proof.
  assert (Pre : augment_pre ex_img ex_img ex_flow (of_rows 0 [[0; 0]])) by (repeat split).
  assert (Hv : forall i j, (i < gh (of_rows 0 [[0; 0]]))%nat ->
                 (j < gw (of_rows 0 [[0; 0]]))%nat -> px (of_rows 0 [[0; 0]]) i j <= 1 # 2).
  { intros i j Hi Hj. simpl in Hi, Hj.
    destruct i as [|i]; [|lia]. destruct j as [|[|j]]; [| |lia];
      unfold Qle; simpl; lia. }
  destruct (all_invalid_resample_zero_flow (ex_cfg true) (ex_draws true true true)
              ex_img ex_img ex_flow _ ltac:(simpl; lia) ltac:(simpl; lia) Pre Hv eq_refl)
    as [_ (i1 & i2 & f & v & E & Z)].
  exists i1, i2, f, v. split; [exact E|]. exact (proj1 (Z 0%nat 1%nat)).
Defined.

(** C1 (amended): when the resampling branch is taken and no flip is applied,
    every pixel where [valid'] is false has flow exactly [(0, 0)]; when the
    resampling branch is skipped (and no flip is applied), [flow'] and
    [valid'] are the same crop window of the padded flow and of the
    thresholded padded mask: the flow is passed through, not zeroed. *)
Theorem invalid_flow_zero_when_resampled c d img1 img2 flow valid i1 i2 f v :
  spatial_transform c d img1 img2 flow valid = Some (i1, i2, f, v) ->
  (do_flip c = false \/ (d_hflip d = false /\ d_vflip d = false)) ->
  (d_spatial d = true -> forall i j, px v i j = false -> px f i j = (0, 0)) /\
  (d_spatial d = false -> exists y0 x0, forall i j,
     px f i j = px (snd (fst (pad_stage c img1 img2 flow valid))) (y0 + i) (x0 + j) /\
     px v i j = px (to_bool_mask (snd (pad_stage c img1 img2 flow valid))) (y0 + i) (x0 + j)).
Proof.
  intros E Hf.
  destruct (spatial_transform_inv _ _ _ _ _ _ _ E)
    as (p1 & p2 & pf & pv & sx & sy & r1 & r2 & rf & rv & j1 & j2 & jf &
        Ep & Es & Er & Ef & Ec).
  rewrite (flip_stage_none c d r1 r2 rf Hf) in Ef. injection Ef as <- <- <-.
  destruct (crop_stage_window _ _ _ _ _ _ _ _ _ _ Ec) as (y0 & x0 & W).
  split.
  - intros Hs i j Hv. rewrite Hs in Er.
    destruct (W i j) as (W1 & W2 & _). rewrite W2 in Hv. rewrite W1.
    exact (resample_stage_invalid_zero _ _ _ _ _ _ _ _ _ _ Er _ _ Hv).
  - intros Hs. rewrite Hs in Er. injection Er as <- <- <- <-.
    rewrite Ep. exists y0, x0. intros i j. destruct (W i j) as (W1 & W2 & _). auto.
Qed.

Lemma invalid_flow_zero_when_resampled_witness :
  exists i1 i2 f v,
    spatial_transform (ex_cfg false) (Draws 1 false 1 1 true false false 0 1)
      ex_img ex_img ex_flow ex_valid = Some (i1, i2, f, v) /\ px v 0 1 = false /\
    ((d_spatial (Draws 1 false 1 1 true false false 0 1) = true ->
      forall i j, px v i j = false -> px f i j = (0, 0)) /\
     (d_spatial (Draws 1 false 1 1 true false false 0 1) = false -> exists y0 x0, forall i j,
       px f i j = px (snd (fst (pad_stage (ex_cfg false) ex_img ex_img ex_flow ex_valid)))
                     (y0 + i) (x0 + j) /\
       px v i j = px (to_bool_mask (snd (pad_stage (ex_cfg false) ex_img ex_img ex_flow ex_valid)))
                     (y0 + i) (x0 + j))).
Proof.
  do 4 eexists.
  match goal with
  | |- ?e = Some (?a, ?b, ?c, ?d) /\ _ =>
      assert (H : e = Some (a, b, c, d)) by reflexivity
  end.
  split; [exact H|]. split; [vm_compute; reflexivity|].
  exact (invalid_flow_zero_when_resampled _ _ _ _ _ _ _ _ _ _ H (or_introl eq_refl)).
Defined.

(** C1 as stated fails: with the resampling branch skipped, no flip and a
    crop of the whole 1x2 frame, the pixel [(0, 1)] is invalid in [valid']
    and still carries the input flow [(3, 4)]. *)
Lemma invalid_flow_kept_without_resample :
  ~ (forall c d img1 img2 flow valid i1 i2 f v,
       augment_pre img1 img2 flow valid ->
       spatial_transform c d img1 img2 flow valid = Some (i1, i2, f, v) ->
       forall i j, (i < crop_h c)%nat -> (j < crop_w c)%nat ->
       px v i j = false -> px f i j = (0, 0)).
Proof.
  intro H.
  specialize (H (ex_cfg false) (ex_draws false false false) ex_img ex_img ex_flow ex_valid
                (slice 0 1 0 2 ex_img) (slice 0 1 0 2 ex_img) (slice 0 1 0 2 ex_flow)
                (slice 0 1 0 2 (to_bool_mask ex_valid))).
  assert (Hpre : augment_pre ex_img ex_img ex_flow ex_valid) by (repeat split).
  specialize (H Hpre eq_refl 0%nat 1%nat ltac:(simpl; lia) ltac:(simpl; lia)).
  vm_compute in H. specialize (H eq_refl). discriminate H.
Qed.

(** C2 (fails on the code): the flip block mirrors the images and the flow
    but not the validity mask.  With a horizontal flip and no resampling on
    the 1x2 example, output pixel [(0, 0)] shows input pixel [(0, 1)], which
    is invalid, while [valid'] is true there: the mirrored mask would be
    false. *)
Theorem hflip_leaves_valid_unmirrored :
  exists i1 i2 f v,
    spatial_transform (ex_cfg true) (ex_draws false true false)
      ex_img ex_img ex_flow ex_valid = Some (i1, i2, f, v) /\
    px i1 0 0 = px ex_img 0 1 /\ px (to_bool_mask ex_valid) 0 1 = false /\
    px v 0 0 = true /\ px (flip_cols (to_bool_mask ex_valid)) 0 0 = false.
Proof.
  do 4 eexists. split; [reflexivity|].
  repeat split; vm_compute; reflexivity.
Qed.

(** C7: with flips enabled, a horizontal flip alone reverses the column
    order of both images and the flow and negates only the x-component; a
    vertical flip alone reverses the row order and negates only the
    y-component; both together reverse rows and columns and negate both
    components.  Extents are unchanged. *)
Theorem flips_mirror_and_negate c d img1 img2 flow j1 j2 jf :
  do_flip c = true -> flip_stage c d img1 img2 flow = (j1, j2, jf) ->
  dims j1 = dims img1 /\ dims j2 = dims img2 /\ dims jf = dims flow /\
  (d_hflip d = true -> d_vflip d = false -> forall i j,
     px j1 i j = px img1 i (gw img1 - 1 - j) /\ px j2 i j = px img2 i (gw img2 - 1 - j) /\
     fst (px jf i j) == - fst (px flow i (gw flow - 1 - j)) /\
     snd (px jf i j) == snd (px flow i (gw flow - 1 - j))) /\
  (d_hflip d = false -> d_vflip d = true -> forall i j,
     px j1 i j = px img1 (gh img1 - 1 - i) j /\ px j2 i j = px img2 (gh img2 - 1 - i) j /\
     fst (px jf i j) == fst (px flow (gh flow - 1 - i) j) /\
     snd (px jf i j) == - snd (px flow (gh flow - 1 - i) j)) /\
  (d_hflip d = true -> d_vflip d = true -> forall i j,
     px j1 i j = px img1 (gh img1 - 1 - i) (gw img1 - 1 - j) /\
     px j2 i j = px img2 (gh img2 - 1 - i) (gw img2 - 1 - j) /\
     fst (px jf i j) == - fst (px flow (gh flow - 1 - i) (gw flow - 1 - j)) /\
     snd (px jf i j) == - snd (px flow (gh flow - 1 - i) (gw flow - 1 - j))).
Proof.
  intros Hd. unfold flip_stage. rewrite Hd.
  destruct (d_hflip d), (d_vflip d); simpl; intro E; injection E as <- <- <-;
    repeat split; intros; try discriminate; simpl; ring.
Qed.

Lemma flips_mirror_and_negate_witness :
  exists j1 j2 jf,
    flip_stage (ex_cfg true) (ex_draws false true true) ex_img ex_img ex_flow = (j1, j2, jf) /\
    px j1 0 0 = px ex_img 0 1 /\ fst (px jf 0 0) == -3 /\ snd (px jf 0 0) == -4.
Proof.
  do 3 eexists.
  match goal with
  | |- ?e = (?a, ?b, ?c) /\ _ => assert (H : e = (a, b, c)) by reflexivity
  end.
  split; [exact H|].
  destruct (flips_mirror_and_negate (ex_cfg true) (ex_draws false true true)
             _ _ _ _ _ _ eq_refl H) as (_ & _ & _ & _ & _ & Hb).
  destruct (Hb eq_refl eq_refl 0%nat 0%nat) as (B1 & _ & B3 & B4).
  split; [exact B1|]. split; [rewrite B3; reflexivity | rewrite B4; reflexivity].
Defined.

(** C8: taking the horizontal-flip branch twice gives back both images and
    the flow, with their extents, value for value at every pixel. *)
Theorem hflip_twice_identity c d img1 img2 flow j1 j2 jf k1 k2 kf :
  do_flip c = true -> d_hflip d = true -> d_vflip d = false ->
  flip_stage c d img1 img2 flow = (j1, j2, jf) ->
  flip_stage c d j1 j2 jf = (k1, k2, kf) ->
  dims k1 = dims img1 /\ dims k2 = dims img2 /\ dims kf = dims flow /\
  (forall i j, (j < gw img1)%nat -> px k1 i j = px img1 i j) /\
  (forall i j, (j < gw img2)%nat -> px k2 i j = px img2 i j) /\
  (forall i j, (j < gw flow)%nat ->
     fst (px kf i j) == fst (px flow i j) /\ snd (px kf i j) == snd (px flow i j)).
Proof.
  intros Hd Hh Hv. unfold flip_stage. rewrite Hd, Hh, Hv. simpl.
  intros E1 E2. injection E1 as <- <- <-. injection E2 as <- <- <-.
  split; [reflexivity|]. split; [reflexivity|]. split; [reflexivity|].
  split; [|split]; intros i j Hj; simpl;
    replace (_ - 1 - (_ - 1 - j))%nat with j by lia; try reflexivity.
  split; ring.
Qed.

Lemma hflip_twice_identity_witness :
  exists j1 j2 jf k1 k2 kf,
    flip_stage (ex_cfg true) (ex_draws false true false) ex_img ex_img ex_flow = (j1, j2, jf) /\
    flip_stage (ex_cfg true) (ex_draws false true false) j1 j2 jf = (k1, k2, kf) /\
    px k1 0 1 = px ex_img 0 1 /\ fst (px kf 0 1) == 3.
Proof.
  do 3 eexists.
  match goal with
  | |- exists _ _ _, ?e = (?a, ?b, ?c) /\ _ => assert (H1 : e = (a, b, c)) by reflexivity
  end.
  do 3 eexists.
  match goal with
  | |- _ /\ ?e = (?a, ?b, ?c) /\ _ => assert (H2 : e = (a, b, c)) by reflexivity
  end.
  split; [exact H1|]. split; [exact H2|].
  destruct (hflip_twice_identity (ex_cfg true) (ex_draws false true false)
             _ _ _ _ _ _ _ _ _ eq_refl eq_refl eq_refl H1 H2)
    as (_ & _ & _ & K1 & _ & Kf).
  split; [apply K1; simpl; lia|].
  destruct (Kf 0%nat 1%nat ltac:(simpl; lia)) as [F1 _]. rewrite F1. reflexivity.
Defined.

(** C9: padding grows the extent to [max(crop, extent)] on the bottom and the
    right only (an axis already at least the crop is not padded), keeps every
    input pixel at its own coordinates, and fills the new pixels of the
    images, the flow and the mask with zero, so the mask is false there. *)
Theorem pad_bottom_right_zero c img1 img2 flow valid p1 p2 pf pv :
  augment_pre img1 img2 flow valid ->
  pad_stage c img1 img2 flow valid = (p1, p2, pf, pv) ->
  dims p1 = (Nat.max (crop_h c) (gh img1), Nat.max (crop_w c) (gw img1)) /\
  dims p2 = dims p1 /\ dims pf = dims p1 /\ dims pv = dims p1 /\
  ((crop_h c <= gh img1)%nat -> gh p1 = gh img1) /\
  ((crop_w c <= gw img1)%nat -> gw p1 = gw img1) /\
  (forall i j, (i < gh img1)%nat -> (j < gw img1)%nat ->
     px p1 i j = px img1 i j /\ px p2 i j = px img2 i j /\
     px pf i j = px flow i j /\ px pv i j = px valid i j) /\
  (forall i j, (i < gh p1)%nat -> (j < gw p1)%nat -> (gh img1 <= i \/ gw img1 <= j)%nat ->
     px p1 i j = (0, 0, 0) /\ px p2 i j = (0, 0, 0) /\ px pf i j = (0, 0) /\
     px pv i j = 0 /\ px (to_bool_mask pv) i j = false).
Proof.
  intros Pre E.
  destruct (pad_stage_pre _ _ _ _ _ _ _ _ _ Pre E) as [(D2 & Df & Dv) Dp].
  pose proof Dp as Dp'. unfold dims in Dp'. injection Dp' as Dph Dpw.
  split; [exact Dp|]. split; [exact D2|]. split; [exact Df|]. split; [exact Dv|].
  split; [lia|]. split; [lia|].
  destruct Pre as (P2 & Pf & Pv). unfold dims in P2, Pf, Pv.
  injection P2 as P2h P2w. injection Pf as Pfh Pfw. injection Pv as Pvh Pvw.
  unfold pad_stage in E.
  destruct (negb _) eqn:B; injection E as <- <- <- <-.
  - split.
    + intros i j Hi Hj. simpl. rewrite P2h, P2w, Pfh, Pfw, Pvh, Pvw.
      replace ((i <? gh img1)%nat && (j <? gw img1)%nat) with true
        by (symmetry; apply andb_true_iff; split; apply Nat.ltb_lt; assumption).
      repeat split.
    + intros i j _ _ Hout. simpl. rewrite P2h, P2w, Pfh, Pfw, Pvh, Pvw.
      replace ((i <? gh img1)%nat && (j <? gw img1)%nat) with false
        by (symmetry; apply andb_false_iff; destruct Hout;
            [left | right]; apply Nat.ltb_ge; assumption).
      repeat split.
  - split.
    + intros i j _ _. repeat split.
    + intros i j Hi Hj Hout. exfalso.
      apply negb_false_iff, andb_true_iff in B. destruct B as [B1 B2].
      apply Nat.eqb_eq in B1, B2. unfold pad_amount in B1, B2.
      destruct (Nat.ltb_spec (gh img1) (crop_h c)), (Nat.ltb_spec (gw img1) (crop_w c)); lia.
Qed.

Lemma pad_bottom_right_zero_witness :
  pad_stage (Config 2 3 true) ex_img ex_img ex_flow ex_valid =
    (np_pad 1 1 ex_img, np_pad 1 1 ex_img, np_pad 1 1 ex_flow, np_pad 1 1 ex_valid) /\
  px (np_pad 1 1 ex_valid) 1 2 = 0 /\ px (np_pad 1 1 ex_flow) 0 1 = (3, 4).
Proof.
  assert (Pre : augment_pre ex_img ex_img ex_flow ex_valid) by (repeat split).
  assert (E : pad_stage (Config 2 3 true) ex_img ex_img ex_flow ex_valid =
    (np_pad 1 1 ex_img, np_pad 1 1 ex_img, np_pad 1 1 ex_flow, np_pad 1 1 ex_valid))
    by reflexivity.
  destruct (pad_bottom_right_zero _ _ _ _ _ _ _ _ _ Pre E) as (_ & _ & _ & _ & _ & _ & In & Out).
  split; [exact E|]. split.
  - destruct (Out 1%nat 2%nat ltac:(simpl; lia) ltac:(simpl; lia) ltac:(simpl; lia))
      as (_ & _ & _ & O & _). exact O.
  - destruct (In 0%nat 1%nat ltac:(simpl; lia) ltac:(simpl; lia)) as (_ & _ & I & _).
    rewrite I. reflexivity.
Defined.

(** * Claim about [interpolate_holes_numpy] *)

(** C10: [interpolate_holes_numpy] only rewrites invalid pixels: wherever the
    mask is true and an input channel value is not NaN, the output holds
    that value cast to float32 (given that the float32 cast of a non-NaN value
    is not NaN). *)
Theorem interpolate_holes_keeps_valid {E F M} `{Float32 E F} (astype_bool : M -> bool)
    griddata image valid_mask out :
  (forall x, isnan_f32 (to_f32 x) = true -> isnan_in x = true) ->
  interpolate_holes_numpy astype_bool griddata image valid_mask = Some out ->
  dims out = dims image /\
  forall i j k x, (i < gh image)%nat -> (j < gw image)%nat ->
    astype_bool (px valid_mask i j) = true ->
    nth_error (px image i j) k = Some x -> isnan_in x = false ->
    nth_error (px out i j) k = Some (to_f32 x).
Proof.
  intros Hnan R. unfold interpolate_holes_numpy in R.
  destruct (negb _); [discriminate|].
  destruct (griddata _ _ _) as [vals|]; [|discriminate].
  destruct (mask_assign _ _ vals) as [g|] eqn:Ma; [|discriminate].
  injection R as <-.
  unfold mask_assign in Ma.
  destruct (length vals =? _)%nat; [|destruct (length vals =? 1)%nat; [|discriminate]];
    injection Ma as <-; (split; [reflexivity|]);
    intros i j k x _ _ Hm Hx Hn; simpl; rewrite Hm, nth_error_map, nth_error_map, Hx; simpl;
    destruct (isnan_f32 (to_f32 x)) eqn:N; try reflexivity;
    rewrite (Hnan _ N) in Hn; discriminate.
Qed.

Lemma interpolate_holes_keeps_valid_witness :
  exists out,
    interpolate_holes_numpy (fun b : bool => b) mean_griddata ex_holes ex_hole_mask = Some out /\
    nth_error (px out 1 1) 0 = Some (Some 7).
Proof.
  eexists.
  match goal with
  | |- ?e = Some ?a /\ _ => assert (R : e = Some a) by reflexivity
  end.
  split; [exact R|].
  destruct (@interpolate_holes_keeps_valid _ _ _ Float32_optQ (fun b : bool => b)
              mean_griddata ex_holes ex_hole_mask _ (fun x N => N) R) as [_ K].
  exact (K 1%nat 1%nat 0%nat (Some 7) ltac:(simpl; lia) ltac:(simpl; lia)
           eq_refl eq_refl eq_refl).
Defined.

(** * Further properties of the augmentor *)

Section EraserFacts.

Lemma randint_range lo hi r z : randint lo hi r = Some z -> (lo <= z < hi)%Z.
Proof.
  unfold randint. destruct (Z.ltb_spec lo hi) as [H|H]; [|discriminate].
  intro E. injection E as <-.
  pose proof (Z.mod_pos_bound (Z.of_nat r) (hi - lo) ltac:(lia)). lia.
Qed.

Lemma randint_some lo hi r : (lo < hi)%Z -> exists z, randint lo hi r = Some z.
Proof. intro H. unfold randint. apply Z.ltb_lt in H. rewrite H. eauto. Qed.

Lemma randint_none lo hi r : (hi <= lo)%Z -> randint lo hi r = None.
Proof. intro H. unfold randint. replace (lo <? hi)%Z with false by (symmetry; apply Z.ltb_ge; lia). reflexivity. Qed.

Lemma erase_loop_some e ht wd col n k g :
  (0 < ht)%nat -> (0 < wd)%nat -> exists g', erase_loop e ht wd col n k g = Some g'.
Proof.
  intros Hh Hw. revert k g. induction n as [|n IH]; intros k g; simpl; [eauto|].
  destruct (randint_some 0 (Z.of_nat wd) (e_x0 e k) ltac:(lia)) as [x0 ->]. simpl.
  destruct (randint_some 0 (Z.of_nat ht) (e_y0 e k) ltac:(lia)) as [y0 ->]. simpl.
  apply IH.
Qed.

(** Every pixel the loop changes lies in the rectangle of one iteration,
    whose corner is inside the [ht x wd] extent and whose sides are 50..99. *)
Lemma erase_loop_spec e ht wd col n k g g' :
  erase_loop e ht wd col n k g = Some g' ->
  dims g' = dims g /\
  forall i j, px g' i j = px g i j \/
    exists k' y0 x0 dy dx, (k <= k' < k + n)%nat /\
      (y0 < ht)%nat /\ (x0 < wd)%nat /\ (50 <= dy < 100)%nat /\ (50 <= dx < 100)%nat /\
      (y0 <= i < y0 + dy)%nat /\ (x0 <= j < x0 + dx)%nat /\ px g' i j = to_uint8_px col.
Proof.
  revert k g. induction n as [|n IH]; intros k g E; cbn [erase_loop] in E.
  - injection E as <-. split; [reflexivity|]. auto.
  - destruct (randint 0 (Z.of_nat wd) (e_x0 e k)) as [x0|] eqn:Rx; [|discriminate].
    destruct (randint 0 (Z.of_nat ht) (e_y0 e k)) as [y0|] eqn:Ry; [|discriminate].
    destruct (randint 50 100 (e_dx e k)) as [dx|] eqn:Rdx; [|discriminate].
    destruct (randint 50 100 (e_dy e k)) as [dy|] eqn:Rdy; [|discriminate].
    apply randint_range in Rx, Ry, Rdx, Rdy.
    destruct (IH _ _ E) as [D P]. split; [exact D|].
    intros i j. destruct (P i j) as [Q1 | (k' & a & b & c' & d' & Hk & R)].
    + rewrite Q1. simpl.
      destruct ((Z.to_nat y0 <=? i)%nat && (i <? Z.to_nat y0 + Z.to_nat dy)%nat &&
                (Z.to_nat x0 <=? j)%nat && (j <? Z.to_nat x0 + Z.to_nat dx)%nat) eqn:B.
      * right. exists k, (Z.to_nat y0), (Z.to_nat x0), (Z.to_nat dy), (Z.to_nat dx).
        repeat rewrite andb_true_iff in B. destruct B as [[[B1 B2] B3] B4].
        apply Nat.leb_le in B1, B3. apply Nat.ltb_lt in B2, B4. repeat split; try lia.
      * left. reflexivity.
    + right. exists k', a, b, c', d'. split; [lia|]. exact R.
Qed.

End EraserFacts.

(** The eraser never touches the first frame nor changes the second frame's
    extent, and raises nothing on a non-empty first frame; every pixel of
    the second frame it changes is set to the mean colour of that frame
    (truncated to [uint8]), and lies in one of at most two rectangles with a
    corner inside the first frame's extent and sides of 50 to 99 pixels. *)
Theorem eraser_transform_frame e img1 img2 :
  (0 < gh img1)%nat -> (0 < gw img1)%nat ->
  exists img2', eraser_transform e img1 img2 = Some (img1, img2') /\
    dims img2' = dims img2 /\
    forall i j, px img2' i j = px img2 i j \/
      (e_apply e = true /\
       exists k y0 x0 dy dx, (k < 2)%nat /\
         (y0 < gh img1)%nat /\ (x0 < gw img1)%nat /\
         (50 <= dy < 100)%nat /\ (50 <= dx < 100)%nat /\
         (y0 <= i < y0 + dy)%nat /\ (x0 <= j < x0 + dx)%nat /\
         px img2' i j = to_uint8_px (mean_color img2)).
Proof.
  intros Hh Hw. unfold eraser_transform.
  destruct (e_apply e) eqn:Ea.
  - destruct (randint_some 1 3 (e_count e) ltac:(lia)) as [n Rn]. rewrite Rn.
    apply randint_range in Rn.
    destruct (erase_loop_some e (gh img1) (gw img1) (mean_color img2) (Z.to_nat n) 0 img2 Hh Hw)
      as [g' Eg]. rewrite Eg.
    destruct (erase_loop_spec _ _ _ _ _ _ _ _ Eg) as [D P].
    exists g'. split; [reflexivity|]. split; [exact D|].
    intros i j. destruct (P i j) as [Q1 | (k & y0 & x0 & dy & dx & Hk & R)]; [left; exact Q1|].
    right. split; [reflexivity|]. exists k, y0, x0, dy, dx. split; [lia|]. exact R.
  - exists img2. split; [reflexivity|]. split; [reflexivity|]. auto.
Qed.

Lemma eraser_transform_frame_witness :
  exists img2',
    eraser_transform (Eraser true 0 (fun _ => 0%nat) (fun _ => 0%nat) (fun _ => 0%nat)
                        (fun _ => 0%nat)) ex_img ex_img = Some (ex_img, img2') /\
    dims img2' = (1, 2)%nat.
Proof.
  destruct (eraser_transform_frame (Eraser true 0 (fun _ => 0%nat) (fun _ => 0%nat)
              (fun _ => 0%nat) (fun _ => 0%nat)) ex_img ex_img
              ltac:(simpl; lia) ltac:(simpl; lia)) as (g & E & D & _).
  exists g. split; [exact E | exact D].
Defined.

(** When the eraser fires on a frame of zero height or width, the draw of
    the patch corner raises. *)
Theorem eraser_transform_empty_raises e img1 img2 :
  e_apply e = true -> (gh img1 = 0 \/ gw img1 = 0)%nat ->
  eraser_transform e img1 img2 = None.
Proof.
  intros Ea Hz. unfold eraser_transform. rewrite Ea.
  destruct (randint_some 1 3 (e_count e) ltac:(lia)) as [n Rn]. rewrite Rn.
  apply randint_range in Rn.
  destruct (Z.to_nat n) as [|m] eqn:En; [lia|]. simpl.
  destruct Hz as [Hz|Hz].
  - destruct (randint 0 (Z.of_nat (gw img1)) _); [|reflexivity].
    rewrite Hz, randint_none by lia. reflexivity.
  - rewrite Hz, randint_none by lia. reflexivity.
Qed.

Lemma eraser_transform_empty_raises_witness :
  eraser_transform (Eraser true 0 (fun _ => 0%nat) (fun _ => 0%nat) (fun _ => 0%nat)
                      (fun _ => 0%nat)) (Grid 0 3 (fun _ _ => (0, 0, 0))) ex_img = None.
Proof. apply eraser_transform_empty_raises; [reflexivity | left; reflexivity]. Defined.

Section CallFacts.

Ltac destruct_opts E :=
  repeat match type of E with
  | context [match ?m with Some _ => _ | None => None end] =>
      let R := fresh "R" in destruct m eqn:R; [|discriminate E]
  end.

Lemma eraser_transform_some e img1 img2 :
  (0 < gh img1)%nat -> (0 < gw img1)%nat ->
  exists img2', eraser_transform e img1 img2 = Some (img1, img2') /\ dims img2' = dims img2.
Proof.
  intros Hh Hw. unfold eraser_transform. destruct (e_apply e).
  - destruct (randint_some 1 3 (e_count e) ltac:(lia)) as [n ->].
    destruct (erase_loop_some e (gh img1) (gw img1) (mean_color img2) (Z.to_nat n) 0 img2 Hh Hw)
      as [g' Eg]. rewrite Eg.
    exists g'. split; [reflexivity|]. exact (proj1 (erase_loop_spec _ _ _ _ _ _ _ _ Eg)).
  - exists img2. split; reflexivity.
Qed.

Lemma even_double h : Nat.even (h + h) = true.
Proof. replace (h + h)%nat with (h * 2)%nat by lia. rewrite Nat.even_mul, orb_true_r. reflexivity. Qed.

Lemma half_double h : Nat.div (h + h) 2 = h.
Proof. replace (h + h)%nat with (h * 2)%nat by lia. apply Nat.div_mul. lia. Qed.

(** The stacked frame of the symmetric branch, and its two halves. *)
Lemma color_transform_sym photo1 photo2 img1 img2 :
  (forall g, dims (photo1 g) = dims g) -> dims img2 = dims img1 ->
  exists s, concat_rows img1 img2 = Some s /\ gh s = (gh img1 + gh img1)%nat /\
    color_transform false photo1 photo2 img1 img2 =
      Some (Grid (gh img1) (gw img1) (px (photo1 s)),
            Grid (gh img1) (gw img1) (fun i j => px (photo1 s) (gh img1 + i) j)).
Proof.
  intros P D. unfold dims in D. injection D as Dh Dw.
  unfold color_transform, concat_rows. rewrite Dw, Nat.eqb_refl.
  eexists. split; [reflexivity|]. split; [simpl; lia|].
  pose proof (P (Grid (gh img1 + gh img2) (gw img1) (fun i j =>
      if (i <? gh img1)%nat then px img1 i j else px img2 (i - gh img1) j))) as Pd.
  unfold dims in Pd. simpl in Pd. injection Pd as Ph Pw.
  unfold split2. rewrite Ph, Pw, Dh, even_double, half_double. reflexivity.
Qed.

Lemma color_transform_dims asym photo1 photo2 img1 img2 :
  (forall g, dims (photo1 g) = dims g) -> (forall g, dims (photo2 g) = dims g) ->
  dims img2 = dims img1 ->
  exists a b, color_transform asym photo1 photo2 img1 img2 = Some (a, b) /\
    dims a = dims img1 /\ dims b = dims img2.
Proof.
  intros P1 P2 D. destruct asym.
  - do 2 eexists. split; [reflexivity|]. split; [apply P1 | apply P2].
  - destruct (color_transform_sym photo1 photo2 img1 img2 P1 D) as (s & _ & _ & ->).
    do 2 eexists. split; [reflexivity|]. rewrite D. split; reflexivity.
Qed.

Lemma resize_transfer {A B} `{Lin A} `{Lin B} (g : grid A) (k : grid B) g' fx fy :
  dims k = dims g -> resize g fx fy = Some g' ->
  exists k', resize k fx fy = Some k' /\ dims k' = dims g'.
Proof.
  intros E R. pose proof (resize_dims _ _ _ _ R) as D.
  unfold dims in E. injection E as Eh Ew.
  unfold resize in *. rewrite Eh, Ew.
  destruct (_ || _)%nat; [discriminate|].
  destruct (negb _); [discriminate|].
  destruct (_ || _)%Z; [discriminate|].
  eexists. split; [reflexivity|]. rewrite D. reflexivity.
Qed.

(** The stages read the frames only through their extents. *)
Lemma pad_stage_transfer c i1 i2 j1 j2 flow valid p1 p2 pf pv :
  dims j1 = dims i1 -> dims j2 = dims i2 ->
  pad_stage c i1 i2 flow valid = (p1, p2, pf, pv) ->
  exists q1 q2, pad_stage c j1 j2 flow valid = (q1, q2, pf, pv) /\
    dims q1 = dims p1 /\ dims q2 = dims p2.
Proof.
  intros D1 D2. unfold dims in D1, D2.
  injection D1 as D1h D1w. injection D2 as D2h D2w.
  unfold pad_stage. rewrite D1h, D1w.
  destruct (negb _); intro E; injection E as <- <- <- <-;
    do 2 eexists; (split; [reflexivity|]); unfold dims; simpl; rewrite ?D1h, ?D1w, ?D2h, ?D2w;
    split; reflexivity.
Qed.

Lemma resample_stage_transfer sx sy p1 p2 q1 q2 pf vb r1 r2 rf rv :
  dims q1 = dims p1 -> dims q2 = dims p2 ->
  resample_stage sx sy p1 p2 pf vb = Some (r1, r2, rf, rv) ->
  exists s1 s2, resample_stage sx sy q1 q2 pf vb = Some (s1, s2, rf, rv) /\
    dims s1 = dims r1 /\ dims s2 = dims r2.
Proof.
  intros D1 D2. unfold resample_stage. intro E.
  destruct (resize p1 sx sy) as [g1|] eqn:R1; [|discriminate].
  destruct (resize p2 sx sy) as [g2|] eqn:R2; [|discriminate].
  destruct (resize_transfer p1 q1 g1 sx sy D1 R1) as (h1 & S1 & E1).
  destruct (resize_transfer p2 q2 g2 sx sy D2 R2) as (h2 & S2 & E2).
  rewrite S1, S2.
  destruct (zero_invalid pf vb) as [f0|]; [|discriminate].
  destruct (resize f0 sx sy) as [f1|]; [|discriminate].
  destruct (resize (to_float_mask vb) sx sy) as [dn|]; [|discriminate].
  destruct (zero_invalid _ _) as [f3|]; [|discriminate].
  injection E as <- <- <- <-. do 2 eexists. split; [reflexivity|]. auto.
Qed.

Lemma flip_stage_flow_transfer c d i1 i2 j1 j2 flow :
  snd (flip_stage c d j1 j2 flow) = snd (flip_stage c d i1 i2 flow).
Proof. unfold flip_stage. destruct (do_flip c), (d_hflip d), (d_vflip d); reflexivity. Qed.

Lemma crop_stage_transfer c d c1 c2 k1 k2 flow valid a1 a2 f v :
  dims k1 = dims c1 ->
  crop_stage c d c1 c2 flow valid = Some (a1, a2, f, v) ->
  exists b1 b2, crop_stage c d k1 k2 flow valid = Some (b1, b2, f, v).
Proof.
  intro D. unfold dims in D. injection D as Dh Dw.
  unfold crop_stage. rewrite Dh, Dw. intro E. destruct_opts E.
  injection E as <- <- <- <-. eauto.
Qed.

(** [spatial_transform] with frames of the same extents gives the same
    flow and validity, and succeeds on both or neither. *)
Lemma spatial_transform_transfer c d i1 i2 j1 j2 flow valid a1 a2 f v :
  dims j1 = dims i1 -> dims j2 = dims i2 ->
  spatial_transform c d i1 i2 flow valid = Some (a1, a2, f, v) ->
  exists b1 b2, spatial_transform c d j1 j2 flow valid = Some (b1, b2, f, v).
Proof.
  intros D1 D2 E.
  destruct (spatial_transform_inv _ _ _ _ _ _ _ E)
    as (p1 & p2 & pf & pv & sx & sy & r1 & r2 & rf & rv & k1 & k2 & kf &
        Ep & Es & Er & Ef & Ec).
  destruct (pad_stage_transfer c i1 i2 j1 j2 flow valid p1 p2 pf pv D1 D2 Ep)
    as (q1 & q2 & Eq & Q1 & Q2).
  assert (Hs : exists s1 s2,
    (if d_spatial d then resample_stage sx sy q1 q2 pf (to_bool_mask pv)
     else Some (q1, q2, pf, to_bool_mask pv)) = Some (s1, s2, rf, rv) /\ dims s1 = dims r1).
  { destruct (d_spatial d).
    - destruct (resample_stage_transfer _ _ _ _ _ _ _ _ _ _ _ _ Q1 Q2 Er)
        as (s1 & s2 & Rs & S1 & _).
      exists s1, s2. auto.
    - injection Er as <- <- <- <-. exists q1, q2. auto. }
  destruct Hs as (s1 & s2 & Rs & S1).
  destruct (flip_stage c d s1 s2 rf) as [[l1 l2] lf] eqn:Fl.
  pose proof (flip_stage_flow_transfer c d r1 r2 s1 s2 rf) as Ft.
  rewrite Fl, Ef in Ft. simpl in Ft. subst lf.
  assert (Dl : dims l1 = dims k1).
  { rewrite (proj1 (flip_stage_dims _ _ _ _ _ _ _ _ Fl)),
            (proj1 (flip_stage_dims _ _ _ _ _ _ _ _ Ef)). exact S1. }
  destruct (crop_stage_transfer _ _ _ _ l1 l2 _ _ _ _ _ _ Dl Ec) as (b1 & b2 & Eb).
  exists b1, b2. unfold spatial_transform. rewrite Eq.
  assert (Gh : gh q1 = gh p1) by (unfold dims in Q1; congruence).
  assert (Gw : gw q1 = gw p1) by (unfold dims in Q1; congruence).
  rewrite Gh, Gw, Es. cbn [fst snd]. rewrite Rs, Fl. exact Eb.
Qed.

End CallFacts.

(** In the symmetric branch both frames receive one and the same colour map:
    when the jitter acts on an image as a pixel map (which may depend on the
    image, as the contrast step does through its mean), stacking, jittering
    and splitting returns each frame at its own extent, mapped by the map
    drawn for the stack. *)
Theorem color_transform_symmetric_same_map photo1 photo2 img1 img2 :
  (forall g, dims (photo1 g) = dims g /\
     exists f : rgb -> rgb, forall i j, px (photo1 g) i j = f (px g i j)) ->
  dims img2 = dims img1 ->
  exists a b (f : rgb -> rgb), color_transform false photo1 photo2 img1 img2 = Some (a, b) /\
    dims a = dims img1 /\ dims b = dims img2 /\
    (forall i j, (i < gh img1)%nat -> px a i j = f (px img1 i j)) /\
    (forall i j, px b i j = f (px img2 i j)).
Proof.
  intros P D.
  destruct (color_transform_sym photo1 photo2 img1 img2 (fun g => proj1 (P g)) D)
    as (s & Cs & _ & ->).
  destruct (proj2 (P s)) as [f Hf].
  unfold concat_rows in Cs. pose proof D as D'. unfold dims in D'. injection D' as Dh Dw.
  rewrite Dw, Nat.eqb_refl in Cs. injection Cs as Es.
  exists (Grid (gh img1) (gw img1) (px (photo1 s))),
         (Grid (gh img1) (gw img1) (fun i j => px (photo1 s) (gh img1 + i) j)), f.
  split; [reflexivity|]. split; [reflexivity|]. split; [rewrite D; reflexivity|].
  split.
  - intros i j Hi. cbn [px]. rewrite Hf, <- Es. cbn [px].
    replace (i <? gh img1)%nat with true by (symmetry; apply Nat.ltb_lt; exact Hi).
    reflexivity.
  - intros i j. cbn [px]. rewrite Hf, <- Es. cbn [px].
    replace (gh img1 + i <? gh img1)%nat with false by (symmetry; apply Nat.ltb_ge; lia).
    replace (gh img1 + i - gh img1)%nat with i by lia. reflexivity.
Qed.

Lemma color_transform_symmetric_same_map_witness :
  exists a b, color_transform false (map_grid (fun p => p)) (map_grid (fun p => p))
                ex_img ex_img = Some (a, b) /\ dims a = (1, 2)%nat /\ dims b = (1, 2)%nat.
Proof.
  destruct (color_transform_symmetric_same_map (map_grid (fun p => p))
              (map_grid (fun p => p)) ex_img ex_img
              (fun g => conj eq_refl (ex_intro (fun f : rgb -> rgb => forall i j,
                 px (map_grid (fun p => p) g) i j = f (px g i j)) (fun p => p) (fun i j => eq_refl)))
              eq_refl)
    as (a & b & f & E & Da & Db & _).
  exists a, b. split; [exact E|]. split; [exact Da | exact Db].
Defined.

(** In the symmetric branch, frames of one width and different heights are
    never returned at their own heights: the split raises when the heights
    add up to an odd number, and otherwise cuts the stack into two halves of
    the mean height. *)
Theorem color_transform_symmetric_uneven photo1 photo2 img1 img2 :
  (forall g, dims (photo1 g) = dims g) ->
  gw img2 = gw img1 -> gh img2 <> gh img1 ->
  match color_transform false photo1 photo2 img1 img2 with
  | None => Nat.odd (gh img1 + gh img2) = true
  | Some (a, b) =>
      (2 * gh a = gh img1 + gh img2)%nat /\ gh b = gh a /\ gh a <> gh img1 /\ gh b <> gh img2
  end.
Proof.
  intros P Dw Dh. unfold color_transform, concat_rows. rewrite Dw, Nat.eqb_refl.
  set (s := photo1 _). pose proof (P (Grid (gh img1 + gh img2) (gw img1) (fun i j =>
      if (i <? gh img1)%nat then px img1 i j else px img2 (i - gh img1) j))) as Ps.
  fold s in Ps. unfold dims in Ps. simpl in Ps. injection Ps as Ph _.
  unfold split2. rewrite Ph.
  destruct (Nat.even (gh img1 + gh img2)) eqn:Ev.
  - cbv beta iota. cbn [gh]. apply Nat.even_spec in Ev. destruct Ev as [m Hm].
    rewrite Hm. replace (2 * m)%nat with (m * 2)%nat by lia. rewrite Nat.div_mul by lia.
    repeat split; lia.
  - unfold Nat.odd. rewrite Ev. reflexivity.
Qed.

Lemma color_transform_symmetric_uneven_witness :
  Nat.odd (gh ex_img + gh (Grid 2 2 (fun _ _ => (0, 0, 0)))) = true.
Proof.
  exact (color_transform_symmetric_uneven (fun g => g) (fun g => g) ex_img
           (Grid 2 2 (fun _ _ => (0, 0, 0))) (fun g => eq_refl) eq_refl
           ltac:(simpl; lia)).
Defined.

(** [__call__] on frames of one non-empty extent, with flow and mask of
    that extent and photometric maps that keep extents, raises for no draw
    and returns four arrays of the crop size. *)
Theorem flow_augmentor_call_dims c asym photo1 photo2 e d img1 img2 flow valid :
  (1 <= crop_h c)%nat -> (1 <= crop_w c)%nat ->
  (forall g, dims (photo1 g) = dims g) -> (forall g, dims (photo2 g) = dims g) ->
  (0 < gh img1)%nat -> (0 < gw img1)%nat -> augment_pre img1 img2 flow valid ->
  exists i1 i2 f v,
    flow_augmentor_call c asym photo1 photo2 e d img1 img2 flow valid = Some (i1, i2, f, v) /\
    dims i1 = (crop_h c, crop_w c) /\ dims i2 = (crop_h c, crop_w c) /\
    dims f = (crop_h c, crop_w c) /\ dims v = (crop_h c, crop_w c).
Proof.
  intros Ch Cw P1 P2 Hh Hw Pre. pose proof Pre as (D2 & Df & Dv).
  destruct (color_transform_dims asym photo1 photo2 img1 img2 P1 P2 D2) as (a & b & Ec & Da & Db).
  assert (Ha : (0 < gh a)%nat /\ (0 < gw a)%nat) by (unfold dims in Da; injection Da; lia).
  destruct Ha as [Hah Haw].
  destruct (eraser_transform_some e a b Hah Haw) as (b' & Ee & Db').
  assert (Pre' : augment_pre a b' flow valid)
    by (unfold augment_pre; rewrite Db', Db, Da, D2; auto).
  destruct (spatial_transform_some_dims c d a b' flow valid Ch Cw Pre')
    as (i1 & i2 & f & v & Es & R).
  exists i1, i2, f, v. split; [|exact R].
  unfold flow_augmentor_call. rewrite Ec. cbn [fst snd]. rewrite Ee. exact Es.
Qed.

Lemma flow_augmentor_call_dims_witness :
  exists i1 i2 f v,
    flow_augmentor_call (ex_cfg true) false (fun g => g) (fun g => g)
      (Eraser true 0 (fun _ => 0%nat) (fun _ => 0%nat) (fun _ => 0%nat) (fun _ => 0%nat))
      (ex_draws true true false) ex_img ex_img ex_flow ex_valid = Some (i1, i2, f, v) /\
    dims f = (1, 2)%nat.
Proof.
  destruct (flow_augmentor_call_dims (ex_cfg true) false (fun g => g) (fun g => g)
              (Eraser true 0 (fun _ => 0%nat) (fun _ => 0%nat) (fun _ => 0%nat) (fun _ => 0%nat))
              (ex_draws true true false) ex_img ex_img ex_flow ex_valid
              ltac:(simpl; lia) ltac:(simpl; lia) (fun g => eq_refl) (fun g => eq_refl)
              ltac:(simpl; lia) ltac:(simpl; lia) (conj eq_refl (conj eq_refl eq_refl)))
    as (i1 & i2 & f & v & E & _ & _ & Df & _).
  exists i1, i2, f, v. split; [exact E | exact Df].
Defined.

(** The photometric stages (colour jitter, either branch, and the eraser)
    never change the flow and validity [__call__] returns: with the same
    spatial draws, any other photometric draws give the same flow and mask. *)
Theorem flow_augmentor_call_flow_photometric_free c asym asym' photo1 photo2 photo1' photo2'
    e e' d img1 img2 flow valid a1 a2 f v :
  (forall g, dims (photo1 g) = dims g) -> (forall g, dims (photo2 g) = dims g) ->
  (forall g, dims (photo1' g) = dims g) -> (forall g, dims (photo2' g) = dims g) ->
  (0 < gh img1)%nat -> (0 < gw img1)%nat -> dims img2 = dims img1 ->
  flow_augmentor_call c asym photo1 photo2 e d img1 img2 flow valid = Some (a1, a2, f, v) ->
  exists b1 b2,
    flow_augmentor_call c asym' photo1' photo2' e' d img1 img2 flow valid = Some (b1, b2, f, v).
Proof.
  intros P1 P2 P1' P2' Hh Hw D2 E.
  destruct (color_transform_dims asym photo1 photo2 img1 img2 P1 P2 D2) as (x1 & x2 & Ex & X1 & X2).
  destruct (color_transform_dims asym' photo1' photo2' img1 img2 P1' P2' D2)
    as (y1 & y2 & Ey & Y1 & Y2).
  assert (Hx : (0 < gh x1)%nat /\ (0 < gw x1)%nat) by (unfold dims in X1; injection X1; lia).
  assert (Hy : (0 < gh y1)%nat /\ (0 < gw y1)%nat) by (unfold dims in Y1; injection Y1; lia).
  destruct (eraser_transform_some e x1 x2 (proj1 Hx) (proj2 Hx)) as (x2' & Exe & X2').
  destruct (eraser_transform_some e' y1 y2 (proj1 Hy) (proj2 Hy)) as (y2' & Eye & Y2').
  unfold flow_augmentor_call in *. rewrite Ex in E. cbn [fst snd] in E. rewrite Exe in E.
  cbn [fst snd] in E. rewrite Ey. cbn [fst snd]. rewrite Eye. cbn [fst snd].
  apply (spatial_transform_transfer c d x1 x2' y1 y2' flow valid a1 a2 f v); [congruence | congruence | exact E].
Qed.

Lemma flow_augmentor_call_flow_photometric_free_witness :
  exists a1 a2 f v b1 b2,
    flow_augmentor_call (ex_cfg true) false (fun g => g) (fun g => g)
      (Eraser false 0 (fun _ => 0%nat) (fun _ => 0%nat) (fun _ => 0%nat) (fun _ => 0%nat))
      (ex_draws false true false) ex_img ex_img ex_flow ex_valid = Some (a1, a2, f, v) /\
    flow_augmentor_call (ex_cfg true) true (map_grid (fun _ => (0, 0, 0))) (fun g => g)
      (Eraser true 1 (fun _ => 1%nat) (fun _ => 0%nat) (fun _ => 0%nat) (fun _ => 0%nat))
      (ex_draws false true false) ex_img ex_img ex_flow ex_valid = Some (b1, b2, f, v).
Proof.
  do 4 eexists.
  match goal with |- exists _ _, ?e = Some (?a, ?b, ?c, ?d) /\ _ =>
    assert (H : e = Some (a, b, c, d)) by reflexivity end.
  destruct (flow_augmentor_call_flow_photometric_free (ex_cfg true) false true
              (fun g => g) (fun g => g) (map_grid (fun _ => (0, 0, 0))) (fun g => g)
              (Eraser false 0 (fun _ => 0%nat) (fun _ => 0%nat) (fun _ => 0%nat) (fun _ => 0%nat))
              (Eraser true 1 (fun _ => 1%nat) (fun _ => 0%nat) (fun _ => 0%nat) (fun _ => 0%nat))
              (ex_draws false true false) ex_img ex_img ex_flow ex_valid _ _ _ _
              (fun g => eq_refl) (fun g => eq_refl) (fun g => eq_refl) (fun g => eq_refl)
              ltac:(simpl; lia) ltac:(simpl; lia) eq_refl H) as (b1 & b2 & Hb).
  exists b1, b2. split; [exact H | exact Hb].
Defined.

Section SpatialFacts.

Ltac destruct_opts E :=
  repeat match type of E with
  | context [match ?m with Some _ => _ | None => None end] =>
      let R := fresh "R" in destruct m eqn:R; [|discriminate E]
  end.

Lemma pad_stage_none c img1 img2 flow valid :
  (crop_h c <= gh img1)%nat -> (crop_w c <= gw img1)%nat ->
  pad_stage c img1 img2 flow valid = (img1, img2, flow, valid).
Proof.
  intros Hh Hw. unfold pad_stage, pad_amount.
  replace (gh img1 <? crop_h c)%nat with false by (symmetry; apply Nat.ltb_ge; lia).
  replace (gw img1 <? crop_w c)%nat with false by (symmetry; apply Nat.ltb_ge; lia).
  reflexivity.
Qed.

Lemma crop_stage_valid_transfer c d d' c1 c2 k1 k2 f f' vb :
  d_y0 d' = d_y0 d -> d_x0 d' = d_x0 d -> dims k1 = dims c1 ->
  option_map snd (crop_stage c d' k1 k2 f' vb) = option_map snd (crop_stage c d c1 c2 f vb).
Proof.
  intros Ey Ex D. unfold dims in D. injection D as Dh Dw.
  unfold crop_stage. rewrite Ey, Ex, Dh, Dw.
  destruct (crop_offset (gh c1) _ _); [|reflexivity].
  destruct (crop_offset (gw c1) _ _); reflexivity.
Qed.

(** The bilinear weights of [cv2.resize] sum to one: a source that is [k]
    on its extent resizes to [k] everywhere. *)
Lemma resize_const (g g' : grid Q) fx fy k :
  (forall i j, (i < gh g)%nat -> (j < gw g)%nat -> px g i j == k) ->
  resize g fx fy = Some g' -> forall i j, px g' i j == k.
Proof.
  intros Hk R i j. unfold resize in R.
  destruct ((gh g =? 0)%nat || (gw g =? 0)%nat) eqn:E0; [discriminate|].
  apply orb_false_iff in E0. destruct E0 as [Eh Ew].
  apply Nat.eqb_neq in Eh, Ew.
  destruct (negb _); [discriminate|]. destruct (_ || _)%Z; [discriminate|].
  injection R as <-. cbn [px].
  pose proof (src_coord_lt (/ fy) i (gh g) ltac:(lia)) as Ly.
  pose proof (src_coord_lt (/ fx) j (gw g) ltac:(lia)) as Lx.
  destruct (src_coord (/ fy) i (gh g)) as [sy ay].
  destruct (src_coord (/ fx) j (gw g)) as [sx ax]. simpl in Ly, Lx.
  cbn [lcomb Lin_Q].
  rewrite !Hk by (repeat match goal with
                  | |- context [match ?x with 0%nat => _ | S _ => _ end] => destruct x eqn:?
                  end; lia).
  ring.
Qed.

(** [cv2.resize] is linear: a flow that is [(ux * k, uy * k)] for a scalar
    array [k] of its extent resizes to [(ux * k', uy * k')]. *)
Lemma resize_scaled (g : grid vec) (k : grid Q) g' k' fx fy ux uy :
  dims g = dims k ->
  (forall i j, (i < gh g)%nat -> (j < gw g)%nat ->
     fst (px g i j) == ux * px k i j /\ snd (px g i j) == uy * px k i j) ->
  resize g fx fy = Some g' -> resize k fx fy = Some k' ->
  forall i j, fst (px g' i j) == ux * px k' i j /\ snd (px g' i j) == uy * px k' i j.
Proof.
  intros D Hs R1 R2 i j. unfold dims in D. injection D as Dh Dw.
  unfold resize in R1, R2. rewrite <- Dh, <- Dw in R2.
  destruct ((gh g =? 0)%nat || (gw g =? 0)%nat) eqn:E0; [discriminate|].
  apply orb_false_iff in E0. destruct E0 as [Eh Ew].
  apply Nat.eqb_neq in Eh, Ew.
  destruct (negb _); [discriminate|]. destruct (_ || _)%Z; [discriminate|].
  injection R1 as <-. injection R2 as <-. cbn [px].
  pose proof (src_coord_lt (/ fy) i (gh g) ltac:(lia)) as Ly.
  pose proof (src_coord_lt (/ fx) j (gw g) ltac:(lia)) as Lx.
  destruct (src_coord (/ fy) i (gh g)) as [sy ay].
  destruct (src_coord (/ fx) j (gw g)) as [sx ax]. simpl in Ly, Lx.
  cbv zeta. cbn [lcomb Lin_prod Lin_Q fst snd].
  split;
  repeat match goal with
  | |- context [fst (px g ?a ?b)] =>
      rewrite (proj1 (Hs a b ltac:(destruct (gh g - 1)%nat eqn:?; lia)
                             ltac:(destruct (gw g - 1)%nat eqn:?; lia)))
  | |- context [snd (px g ?a ?b)] =>
      rewrite (proj2 (Hs a b ltac:(destruct (gh g - 1)%nat eqn:?; lia)
                             ltac:(destruct (gw g - 1)%nat eqn:?; lia)))
  end; ring.
Qed.

(** The crop window lies inside the flipped frame when that covers the crop. *)
Lemma crop_stage_window_in c d img1 img2 flow valid i1 i2 f v :
  (crop_h c <= gh img1)%nat -> (crop_w c <= gw img1)%nat ->
  crop_stage c d img1 img2 flow valid = Some (i1, i2, f, v) ->
  exists y0 x0, (y0 + crop_h c <= gh img1)%nat /\ (x0 + crop_w c <= gw img1)%nat /\
    forall i j, px v i j = px valid (y0 + i) (x0 + j).
Proof.
  intros Hh Hw. unfold crop_stage.
  destruct (crop_offset_fits (gh img1) (crop_h c) (d_y0 d) Hh) as [y0 [Ey By]].
  destruct (crop_offset_fits (gw img1) (crop_w c) (d_x0 d) Hw) as [x0 [Ex Bx]].
  rewrite Ey, Ex. intro E. injection E as _ _ _ <-.
  exists y0, x0. split; [exact By|]. split; [exact Bx|]. reflexivity.
Qed.

Lemma pad_amount_self n : pad_amount n n = 0%nat.
Proof. unfold pad_amount. rewrite Nat.ltb_irrefl. reflexivity. Qed.

Lemma slice_whole {A} h w (p : nat -> nat -> A) :
  slice 0 h 0 w (Grid h w p) = Grid h w p.
Proof. unfold slice. cbn [gh gw]. rewrite !Nat.sub_0_r, !Nat.min_id. reflexivity. Qed.

End SpatialFacts.

(** The horizontal and vertical flip draws never change the validity mask
    [spatial_transform] returns, nor whether it raises. *)
Theorem spatial_transform_valid_ignores_flips c d h v img1 img2 flow valid :
  option_map snd (spatial_transform c (with_flips d h v) img1 img2 flow valid) =
  option_map snd (spatial_transform c d img1 img2 flow valid).
Proof.
  unfold spatial_transform.
  destruct (pad_stage c img1 img2 flow valid) as [[[p1 p2] pf] pv].
  change (sample_scale c (with_flips d h v) (gh p1) (gw p1))
    with (sample_scale c d (gh p1) (gw p1)).
  change (d_spatial (with_flips d h v)) with (d_spatial d).
  destruct (sample_scale c d (gh p1) (gw p1)) as [[sx sy]|]; [|reflexivity].
  cbn [fst snd].
  destruct (if d_spatial d then _ else _) as [[[[r1 r2] rf] rv]|]; [|reflexivity].
  destruct (flip_stage c (with_flips d h v) r1 r2 rf) as [[k1 k2] kf] eqn:F1.
  destruct (flip_stage c d r1 r2 rf) as [[j1 j2] jf] eqn:F2.
  apply crop_stage_valid_transfer; [reflexivity | reflexivity|].
  rewrite (proj1 (flip_stage_dims _ _ _ _ _ _ _ _ F1)),
          (proj1 (flip_stage_dims _ _ _ _ _ _ _ _ F2)). reflexivity.
Qed.

(** A sample already at the crop size, drawn without spatial resampling and
    without flips, comes out unchanged, with the mask thresholded at 0.5. *)
Theorem spatial_transform_identity_at_crop_size c d img1 img2 flow valid :
  augment_pre img1 img2 flow valid ->
  dims img1 = (crop_h c, crop_w c) -> (1 <= crop_h c)%nat -> (1 <= crop_w c)%nat ->
  d_spatial d = false ->
  (do_flip c = false \/ (d_hflip d = false /\ d_vflip d = false)) ->
  spatial_transform c d img1 img2 flow valid = Some (img1, img2, flow, to_bool_mask valid).
Proof.
  intros (D2 & Df & Dv) D1 Ch Cw Sp Fl.
  destruct img1 as [h1 w1 q1], img2 as [h2 w2 q2], flow as [hf wf qf], valid as [hv wv qv].
  unfold dims in *; cbn [gh gw] in *.
  injection D1 as -> ->. injection D2 as -> ->. injection Df as -> ->. injection Dv as -> ->.
  unfold spatial_transform, pad_stage. cbn [gh gw]. rewrite !pad_amount_self.
  cbn [Nat.eqb andb negb].
  destruct (sample_scale_ge c d (crop_h c) (crop_w c) ltac:(lia) ltac:(lia))
    as (sx & sy & Es & _). cbn [gh gw]. rewrite Es, Sp. cbn [fst snd].
  rewrite (flip_stage_none _ _ _ _ _ Fl).
  unfold crop_stage, crop_offset. cbn [gh gw]. rewrite !Nat.eqb_refl.
  unfold to_bool_mask, map_grid. cbn [gh gw px].
  rewrite !slice_whole. reflexivity.
Qed.

Lemma spatial_transform_identity_at_crop_size_witness :
  spatial_transform (ex_cfg true) (ex_draws false false false) ex_img ex_img ex_flow ex_valid =
  Some (ex_img, ex_img, ex_flow, to_bool_mask ex_valid).
Proof.
  apply (spatial_transform_identity_at_crop_size (ex_cfg true) (ex_draws false false false)
           ex_img ex_img ex_flow ex_valid (conj eq_refl (conj eq_refl eq_refl)) eq_refl
           ltac:(simpl; lia) ltac:(simpl; lia) eq_refl (or_intror (conj eq_refl eq_refl))).
Defined.

Lemma Qle_half_one x : x == 1 -> negb (Qle_bool x (1 # 2)) = true.
Proof.
  intro H. destruct (Qle_bool x (1 # 2)) eqn:B; [|reflexivity].
  apply Qle_bool_iff in B. rewrite H in B. unfold Qle in B; simpl in B. lia.
Qed.

(** A uniform motion [(ux, uy)] on the valid pixels comes out of the
    resampling block as that motion scaled by [(scale_x, scale_y)] and by
    [D / (D + 1e-5)], where [D] is the resized validity: the [1e-5] guard
    shrinks the renormalised flow slightly. *)
Theorem resample_stage_uniform_flow sx sy img1 img2 (flow : grid vec) (valid : grid bool)
    i1 i2 f v ux uy :
  (forall i j, (i < gh flow)%nat -> (j < gw flow)%nat -> px valid i j = true ->
     px flow i j = (ux, uy)) ->
  resample_stage sx sy img1 img2 flow valid = Some (i1, i2, f, v) ->
  exists dens, resize (to_float_mask valid) sx sy = Some dens /\ v = to_bool_mask dens /\
    forall i j, px v i j = true ->
      fst (px f i j) == ux * sx * (px dens i j / (px dens i j + eps)) /\
      snd (px f i j) == uy * sy * (px dens i j / (px dens i j + eps)).
Proof.
  intros Hu E. unfold resample_stage in E.
  destruct (resize img1 sx sy); [|discriminate].
  destruct (resize img2 sx sy); [|discriminate].
  destruct (zero_invalid flow valid) as [f0|] eqn:Z0; [|discriminate].
  destruct (resize f0 sx sy) as [f1|] eqn:R3; [|discriminate].
  destruct (resize (to_float_mask valid) sx sy) as [dn|] eqn:R4; [|discriminate].
  destruct (zero_invalid (renorm sx sy f1 dn) (to_bool_mask dn)) as [f3|] eqn:Z1;
    [|discriminate].
  injection E as <- <- <- <-.
  exists dn. split; [reflexivity|]. split; [reflexivity|].
  unfold zero_invalid in Z0. destruct (_ && _)%nat eqn:B; [|discriminate].
  apply andb_true_iff in B. destruct B as [Bh Bw]. apply Nat.eqb_eq in Bh, Bw.
  injection Z0 as <-.
  assert (Hs : forall i j, (i < gh flow)%nat -> (j < gw flow)%nat ->
    fst (px (Grid (gh flow) (gw flow)
               (fun i j => if px valid i j then px flow i j else (0, 0))) i j)
      == ux * px (to_float_mask valid) i j /\
    snd (px (Grid (gh flow) (gw flow)
               (fun i j => if px valid i j then px flow i j else (0, 0))) i j)
      == uy * px (to_float_mask valid) i j).
  { intros i j Hi Hj. cbn [px to_float_mask map_grid].
    destruct (px valid i j) eqn:V.
    - rewrite (Hu i j Hi Hj V). cbn [fst snd]. split; ring.
    - cbn [fst snd]. split; ring. }
  assert (Hl := resize_scaled (Grid (gh flow) (gw flow)
    (fun i j => if px valid i j then px flow i j else (0, 0))) (to_float_mask valid)
    f1 dn sx sy ux uy ltac:(unfold dims; simpl; rewrite Bh, Bw; reflexivity) Hs R3 R4).
  unfold zero_invalid in Z1. destruct (_ && _)%nat; [|discriminate].
  injection Z1 as <-. intros i j Hv. cbn [px to_bool_mask map_grid renorm] in Hv |- *.
  rewrite Hv. cbn [fst snd]. destruct (Hl i j) as [L1 L2].
  rewrite L1, L2. unfold Qdiv. split; ring.
Qed.

Lemma resample_stage_uniform_flow_witness :
  exists i1 i2 f v dens,
    resample_stage 1 1 ex_img ex_img ex_flow (to_bool_mask ex_valid) = Some (i1, i2, f, v) /\
    resize (to_float_mask (to_bool_mask ex_valid)) 1 1 = Some dens /\
    fst (px f 0 0) == 1 * 1 * (px dens 0 0 / (px dens 0 0 + eps)).
Proof.
  do 4 eexists.
  match goal with |- exists _, ?e = Some (?a, ?b, ?c, ?d) /\ _ =>
    assert (H : e = Some (a, b, c, d)) by reflexivity end.
  destruct (resample_stage_uniform_flow 1 1 ex_img ex_img ex_flow (to_bool_mask ex_valid)
              _ _ _ _ 1 2
              ltac:(intros i j Hi Hj Hv; simpl in Hi, Hj;
                    destruct i as [|i]; [|lia]; destruct j as [|[|j]]; [reflexivity | | lia];
                    vm_compute in Hv; discriminate Hv)
              H) as (dens & Rd & Ev & P).
  exists dens. split; [exact H|]. split; [exact Rd|].
  apply (P 0%nat 0%nat). rewrite Ev. vm_compute in Rd. injection Rd as <-. reflexivity.
Defined.

(** A mask that is valid everywhere on a frame at least as large as the
    crop stays valid on the whole crop, with or without resampling: the
    bilinear weights of [cv2.resize] sum to one. *)
Theorem spatial_transform_full_mask_stays_valid c d img1 img2 flow valid i1 i2 f v :
  augment_pre img1 img2 flow valid ->
  (crop_h c <= gh img1)%nat -> (crop_w c <= gw img1)%nat ->
  (forall i j, (i < gh valid)%nat -> (j < gw valid)%nat -> px valid i j == 1) ->
  spatial_transform c d img1 img2 flow valid = Some (i1, i2, f, v) ->
  forall i j, (i < crop_h c)%nat -> (j < crop_w c)%nat -> px v i j = true.
Proof.
  intros (D2 & Df & Dv) Hh Hw Hone E.
  destruct (spatial_transform_inv _ _ _ _ _ _ _ E)
    as (p1 & p2 & pf & pv & sx & sy & r1 & r2 & rf & rv & k1 & k2 & kf &
        Ep & Es & Er & Ef & Ec).
  rewrite (pad_stage_none c img1 img2 flow valid Hh Hw) in Ep.
  injection Ep as <- <- <- <-.
  unfold dims in Dv. injection Dv as Dvh Dvw.
  destruct (d_spatial d).
  - destruct (resample_stage_valid _ _ _ _ _ _ _ _ _ _ Er) as (dn & Rd & ->).
    assert (Hdn := resize_const (to_float_mask (to_bool_mask valid)) dn sx sy 1
      ltac:(intros a b Ha Hb; cbn [px to_float_mask to_bool_mask map_grid gh gw] in *;
            rewrite (Qle_half_one _ (Hone a b Ha Hb)); reflexivity) Rd).
    destruct (crop_stage_window _ _ _ _ _ _ _ _ _ _ Ec) as (y0 & x0 & W).
    intros i j _ _. rewrite (proj1 (proj2 (W i j))).
    cbn [px to_bool_mask map_grid]. apply Qle_half_one, Hdn.
  - injection Er as <- <- <- <-.
    destruct (flip_stage_dims _ _ _ _ _ _ _ _ Ef) as (Dk & _ & _).
    unfold dims in Dk. injection Dk as Dkh Dkw.
    destruct (crop_stage_window_in c d k1 k2 kf (to_bool_mask valid) i1 i2 f v
                ltac:(lia) ltac:(lia) Ec) as (y0 & x0 & By & Bx & W).
    intros i j Hi Hj. rewrite W. cbn [px to_bool_mask map_grid].
    apply Qle_half_one, Hone; lia.
Qed.

Lemma spatial_transform_full_mask_stays_valid_witness :
  exists i1 i2 f v,
    spatial_transform (ex_cfg true) (ex_draws true true false) ex_img ex_img ex_flow
      (of_rows 0 [[1; 1]]) = Some (i1, i2, f, v) /\ px v 0 1 = true.
Proof.
  do 4 eexists.
  match goal with |- ?e = Some (?a, ?b, ?c, ?d) /\ _ =>
    assert (H : e = Some (a, b, c, d)) by reflexivity end.
  split; [exact H|].
  apply (spatial_transform_full_mask_stays_valid (ex_cfg true) (ex_draws true true false)
           ex_img ex_img ex_flow (of_rows 0 [[1; 1]]) _ _ _ _
           (conj eq_refl (conj eq_refl eq_refl)) ltac:(simpl; lia) ltac:(simpl; lia)
           ltac:(intros i j Hi Hj; simpl in Hi, Hj;
                 destruct i as [|i]; [|lia]; destruct j as [|[|j]]; [reflexivity | reflexivity | lia])
           H); simpl; lia.
Defined.

(** With spatial resampling drawn, a validity mask whose extent differs from
    the flow's makes [spatial_transform] raise (numpy's boolean-index
    [IndexError] in [flow[~valid] = 0]), whatever the frames. *)
Theorem spatial_transform_mask_shape_mismatch c d img1 img2 flow valid :
  d_spatial d = true -> dims valid <> dims flow ->
  spatial_transform c d img1 img2 flow valid = None.
Proof.
  intros Sp Ne. unfold spatial_transform.
  destruct (pad_stage c img1 img2 flow valid) as [[[p1 p2] pf] pv] eqn:Ep.
  assert (Ne' : dims pv <> dims pf).
  { unfold pad_stage in Ep. unfold dims in *.
    destruct (negb _); injection Ep as _ _ <- <-; simpl; intro H; apply Ne;
      injection H as H1 H2; f_equal; lia. }
  destruct (sample_scale c d (gh p1) (gw p1)); [|reflexivity].
  rewrite Sp. unfold resample_stage.
  destruct (resize p1 _ _); [|reflexivity].
  destruct (resize p2 _ _); [|reflexivity].
  unfold zero_invalid. destruct (_ && _)%nat eqn:B; [|reflexivity].
  exfalso. apply Ne'. apply andb_true_iff in B. destruct B as [Bh Bw].
  apply Nat.eqb_eq in Bh, Bw. unfold dims. simpl in Bh, Bw. rewrite Bh, Bw. reflexivity.
Qed.

Lemma spatial_transform_mask_shape_mismatch_witness :
  spatial_transform (ex_cfg false) (ex_draws true false false) ex_img ex_img ex_flow
    (of_rows 0 [[1]]) = None.
Proof.
  apply spatial_transform_mask_shape_mismatch; [reflexivity | discriminate].
Defined.

Section HoleFacts.



End HoleFacts.




